(** * travel-app: the chat page of the web client

    A shallow embedding of [apps/web/src/app/page.tsx] (the [Home] component
    with its [handleSubmit] handler) and of [apps/web/src/lib/api.ts]
    ([sendMessage]), together with the parts of the JavaScript run time they
    call: [String.prototype.trim], truthiness, [JSON.stringify] on the request
    object, property access on the parsed reply and the settlement of the
    [fetch] promise.

    An [async] function runs to its first [await] without interruption and
    is resumed later by the settlement of the awaited promise.  The handler
    is therefore split in two atomic transitions of a [world]: [handleSubmit]
    (everything up to the [await]) and [settle] (everything after it). *)

From Stdlib Require Import NArith Ascii String DecimalPos DecimalN.
From Stdlib Require Import Floats.PrimFloat.
From stdpp Require Import gmap list.

Local Open Scope N_scope.

(** ** JavaScript strings *)

(** A JavaScript string is a sequence of 16-bit code units. *)
Definition js_string : Type := list N.

Definition code_unit (c : N) : Prop := c < 65536.

Definition well_formed (s : js_string) : Prop := Forall code_unit s.

(** A string literal of the source, all of whose characters are ASCII. *)
Definition lit (s : string) : js_string :=
  map N_of_ascii (list_ascii_of_string s).

(** ECMA-262 WhiteSpace and LineTerminator code points, the ones
    [String.prototype.trim] strips.  All of them lie in the basic
    multilingual plane, so the test on code units is exact. *)
Definition is_white_space (c : N) : bool :=
  (c =? 9) || (c =? 10) || (c =? 11) || (c =? 12) || (c =? 13)
  || (c =? 32) || (c =? 160) || (c =? 5760)
  || ((8192 <=? c) && (c <=? 8202))
  || (c =? 8232) || (c =? 8233) || (c =? 8239) || (c =? 8287)
  || (c =? 12288) || (c =? 65279).

Fixpoint trimStart (s : js_string) : js_string :=
  match s with
  | [] => []
  | c :: s' => if is_white_space c then trimStart s' else s
  end.

Definition trimEnd (s : js_string) : js_string :=
  rev (trimStart (rev s)).

(** [s.trim()] *)
Definition trim (s : js_string) : js_string := trimEnd (trimStart s).

(** A prompt that is empty or made of white space only. *)
Definition blank (s : js_string) : Prop :=
  Forall (fun c => is_white_space c = true) s.

(** [String(n)] for a non-negative integer [n], as a template literal
    [`${n}`] computes it: the decimal digits, most significant first. *)
Fixpoint digits (u : Decimal.uint) : js_string :=
  match u with
  | Decimal.Nil => []
  | Decimal.D0 u => 48 :: digits u
  | Decimal.D1 u => 49 :: digits u
  | Decimal.D2 u => 50 :: digits u
  | Decimal.D3 u => 51 :: digits u
  | Decimal.D4 u => 52 :: digits u
  | Decimal.D5 u => 53 :: digits u
  | Decimal.D6 u => 54 :: digits u
  | Decimal.D7 u => 55 :: digits u
  | Decimal.D8 u => 56 :: digits u
  | Decimal.D9 u => 57 :: digits u
  end.

Definition Number_toString (n : N) : js_string := digits (N.to_uint n).

(** ** JavaScript values *)

(** The values that can flow through the component: [undefined] and the
    values [JSON.parse] builds.  Numbers are IEEE 754 doubles; an object is
    the finite map of its own properties. *)
#[warnings="-register-all"]
Inductive js_value : Type :=
| VUndefined
| VNull
| VBool (b : bool)
| VNumber (x : float)
| VString (s : js_string)
| VArray (items : list js_value)
| VObject (props : gmap js_string js_value).

(** ToBoolean *)
Definition truthy (v : js_value) : bool :=
  match v with
  | VUndefined | VNull => false
  | VBool b => b
  | VNumber x => negb (PrimFloat.eqb x 0%float) && PrimFloat.eqb x x
  | VString s => match s with [] => false | _ :: _ => true end
  | VArray _ | VObject _ => true
  end.

(** ** JSON text of the request *)

Definition is_leading_surrogate (c : N) : bool := (55296 <=? c) && (c <=? 56319).
Definition is_trailing_surrogate (c : N) : bool := (56320 <=? c) && (c <=? 57343).

(** One lower-case hexadecimal digit, for [d < 16]. *)
Definition hex_digit (d : N) : N := if d <? 10 then 48 + d else 87 + d.

(** ECMA-262 UnicodeEscape: a backslash, [u] and four hexadecimal digits. *)
Definition UnicodeEscape (c : N) : js_string :=
  [92; 117; hex_digit (c / 4096 mod 16); hex_digit (c / 256 mod 16);
   hex_digit (c / 16 mod 16); hex_digit (c mod 16)].

(** The escape of one code point that is not the first half of a surrogate
    pair (ECMA-262 QuoteJSONString, table 75 and the two steps after it). *)
Definition quote_unit (c : N) : js_string :=
  if c =? 8 then [92; 98]
  else if c =? 9 then [92; 116]
  else if c =? 10 then [92; 110]
  else if c =? 12 then [92; 102]
  else if c =? 13 then [92; 114]
  else if c =? 34 then [92; 34]
  else if c =? 92 then [92; 92]
  else if (c <? 32) || is_leading_surrogate c || is_trailing_surrogate c
       then UnicodeEscape c
  else [c].

(** The characters QuoteJSONString puts between the two quotation marks.  A
    leading surrogate followed by a trailing one is a single code point above
    U+FFFF and is copied; a lone surrogate is escaped. *)
Fixpoint quote_units (s : js_string) : js_string :=
  match s with
  | [] => []
  | c :: s' =>
      match s' with
      | d :: s'' =>
          if is_leading_surrogate c && is_trailing_surrogate d
          then c :: d :: quote_units s''
          else quote_unit c ++ quote_units s'
      | [] => quote_unit c
      end
  end.

Definition QuoteJSONString (s : js_string) : js_string :=
  34 :: quote_units s ++ [34].

(** An object literal whose property values are strings, properties in
    creation order: [{ message }] is [[(lit "message", message)]]. *)
Definition string_object : Type := list (js_string * js_string).

Definition serialize_property (kv : js_string * js_string) : js_string :=
  QuoteJSONString (fst kv) ++ 58 :: QuoteJSONString (snd kv).

Fixpoint join_comma (parts : list js_string) : js_string :=
  match parts with
  | [] => []
  | [p] => p
  | p :: rest => p ++ 44 :: join_comma rest
  end.

(** [JSON.stringify(o)] for such an object, with no indentation. *)
Definition JSON_stringify (o : string_object) : js_string :=
  123 :: join_comma (map serialize_property o) ++ [125].

(** *** Reading the request back, as a JSON parser does *)

Definition hex_value (c : N) : option N :=
  if (48 <=? c) && (c <=? 57) then Some (c - 48)
  else if (97 <=? c) && (c <=? 102) then Some (c - 87)
  else if (65 <=? c) && (c <=? 70) then Some (c - 55)
  else None.

Definition hex4 (a b c d : N) : option N :=
  match hex_value a, hex_value b, hex_value c, hex_value d with
  | Some x, Some y, Some z, Some w => Some (x * 4096 + y * 256 + z * 16 + w)
  | _, _, _, _ => None
  end.

(** The characters of a JSON string literal after its opening quotation
    mark: the string denoted and the text left after the closing mark. *)
Definition parsed_cons (c : N) (r : option (js_string * js_string))
  : option (js_string * js_string) :=
  match r with
  | Some (s, k) => Some (c :: s, k)
  | None => None
  end.

Fixpoint parse_string_body (t : js_string) : option (js_string * js_string) :=
  match t with
  | [] => None
  | c :: rest =>
      if c =? 34 then Some ([], rest)
      else if c =? 92 then
        match rest with
        | [] => None
        | e :: rest1 =>
            if e =? 34 then parsed_cons 34 (parse_string_body rest1)
            else if e =? 92 then parsed_cons 92 (parse_string_body rest1)
            else if e =? 47 then parsed_cons 47 (parse_string_body rest1)
            else if e =? 98 then parsed_cons 8 (parse_string_body rest1)
            else if e =? 102 then parsed_cons 12 (parse_string_body rest1)
            else if e =? 110 then parsed_cons 10 (parse_string_body rest1)
            else if e =? 114 then parsed_cons 13 (parse_string_body rest1)
            else if e =? 116 then parsed_cons 9 (parse_string_body rest1)
            else if e =? 117 then
              match rest1 with
              | h3 :: h2 :: h1 :: h0 :: rest2 =>
                  match hex4 h3 h2 h1 h0 with
                  | Some u => parsed_cons u (parse_string_body rest2)
                  | None => None
                  end
              | _ => None
              end
            else None
        end
      else if c <? 32 then None
      else parsed_cons c (parse_string_body rest)
  end.

Definition parse_string (t : js_string) : option (js_string * js_string) :=
  match t with
  | [] => None
  | c :: t' => if c =? 34 then parse_string_body t' else None
  end.

(** The [message] a server reads from a request body of the shape
    [{"message":<string>}]. *)
Definition body_message (body : js_string) : option js_string :=
  match body with
  | [] => None
  | c :: t =>
      if c =? 123 then
        match parse_string t with
        | Some (key, d :: t') =>
            if d =? 58 then
              match parse_string t' with
              | Some (value, [e]) =>
                  if (e =? 125) && bool_decide (key = lit "message")
                  then Some value else None
              | _ => None
              end
            else None
        | _ => None
        end
      else None
  end.

(** ** Completions, thrown values and the network *)

(** What a [catch] clause can receive: an instance of [Error] with its
    [message], or any other thrown value. *)
Inductive js_thrown : Type :=
| ThrownError (message : js_string)
| ThrownOther.

(** How an evaluation or an awaited promise ends. *)
Inductive completion (A : Type) : Type :=
| Return (a : A)
| Throw (e : js_thrown).
Arguments Return {A} a.
Arguments Throw {A} e.

(** The [Response] object [fetch] resolves to, as far as [sendMessage] looks
    at it: its [status] and what the promise [res.json()] settles to (the
    parsed body, or the rejection for a body that is not JSON). *)
Record Response : Type := {
  status : N;
  json : completion js_value;
}.

(** [res.ok] *)
Definition ok (res : Response) : bool :=
  (200 <=? status res) && (status res <=? 299).

(** How the promise returned by [fetch] settles: it rejects when no response
    arrives (network unreachable), and resolves for every status. *)
Inductive fetch_outcome : Type :=
| FetchRejects (e : js_thrown)
| FetchResolves (res : Response).

(** An outbound call: the arguments given to [fetch]. *)
Record request : Type := {
  url : js_string;
  method : js_string;
  headers : list (js_string * js_string);
  body : js_string;
}.

(** ** The component state *)

(** The four [useState] cells of [Home].  [prompt] and [error] only ever
    receive strings; [response] receives whatever [result.response] is. *)
Record page_state : Type := {
  prompt : js_string;
  response : js_value;
  isLoading : bool;
  error : js_string;
}.

Definition setPrompt (v : js_string) (st : page_state) : page_state :=
  {| prompt := v; response := response st;
     isLoading := isLoading st; error := error st |}.

Definition setResponse (v : js_value) (st : page_state) : page_state :=
  {| prompt := prompt st; response := v;
     isLoading := isLoading st; error := error st |}.

Definition setIsLoading (v : bool) (st : page_state) : page_state :=
  {| prompt := prompt st; response := response st;
     isLoading := v; error := error st |}.

Definition setError (v : js_string) (st : page_state) : page_state :=
  {| prompt := prompt st; response := response st;
     isLoading := isLoading st; error := v |}.

(** The state of the first render. *)
Definition initial_state : page_state :=
  {| prompt := []; response := VString []; isLoading := false; error := [] |}.

(** ** What [Home] renders *)

(** The [white-space] property of a paragraph: [whitespace-pre-wrap] keeps
    runs of spaces and line breaks, the default collapses them. *)
Inductive white_space : Type := WsNormal | WsPreWrap.

(** The value of one of the two conditional children [{x && (<Card>...)}]:
    the card, or the falsy value of [x] itself, for which React draws
    nothing when it is a string, [undefined], [null] or [false]. *)
Inductive jsx_child : Type :=
| JsxValue (v : js_value)
| JsxCard (title : option js_string) (ws : white_space) (content : js_value).

(** [x && rhs] *)
Definition js_and (x : js_value) (rhs : jsx_child) : jsx_child :=
  if truthy x then rhs else JsxValue x.

Record view : Type := {
  input_value : js_string;
  input_disabled : bool;
  button_disabled : bool;
  button_label : js_string;
  error_child : jsx_child;
  response_child : jsx_child;
}.

Definition Home (st : page_state) : view :=
  {| input_value := prompt st;
     input_disabled := isLoading st;
     button_disabled := isLoading st || negb (truthy (VString (trim (prompt st))));
     button_label := if isLoading st then lit "Sending..." else lit "Send";
     error_child :=
       js_and (VString (error st)) (JsxCard None WsNormal (VString (error st)));
     response_child :=
       js_and (response st)
              (JsxCard (Some (lit "Response")) WsPreWrap (response st)) |}.

(** Whether a conditional child puts a card on the page. *)
Definition shown (c : jsx_child) : bool :=
  match c with
  | JsxCard _ _ _ => true
  | JsxValue _ => false
  end.

(** The string a conditional child puts on the page, when what it holds is
    a string: the text of the card, or the empty text of a bare [""]. *)
Definition child_text (c : jsx_child) : option js_string :=
  match c with
  | JsxCard _ _ (VString s) => Some s
  | JsxValue (VString s) => Some s
  | _ => None
  end.

(** Whether [Home] returns the error card, and whether it returns the
    response card.  A returned card is what is on display, and a withheld one
    means nothing is, when the value tested is a string or [undefined], as
    [error] always is and as [response] is for a reply of type
    [ChatResponse]; what React draws for a number, a boolean, an array or an
    object is not modelled. *)
Definition shows_error (st : page_state) : bool := shown (error_child (Home st)).
Definition shows_response (st : page_state) : bool := shown (response_child (Home st)).

(** The values the [response] state has for a reply of type [ChatResponse],
    and for one without the property: a string or [undefined]. *)
Definition is_string_or_undefined (v : js_value) : bool :=
  match v with
  | VString _ | VUndefined => true
  | VNull | VBool _ | VNumber _ | VArray _ | VObject _ => false
  end.

(** ** [sendMessage] and [handleSubmit] *)

(** What the code takes from its surroundings: the build-time environment
    variable read by [api.ts] ([None] when it is not set), and the message
    of the [TypeError] the engine throws when [.response] is read on [null]
    or on [undefined], whose wording differs between engines and between
    the two values. *)
Record environment : Type := {
  NEXT_PUBLIC_API_URL : option js_string;
  null_read_message : js_value -> js_string;
}.

Section Client.

Variable env : environment.

(** [process.env.NEXT_PUBLIC_API_URL || "http://localhost:8000"] *)
Definition API_URL : js_string :=
  match NEXT_PUBLIC_API_URL env with
  | Some s => if truthy (VString s) then s else lit "http://localhost:8000"
  | None => lit "http://localhost:8000"
  end.

(** [sendMessage] up to its [await]: the call it hands to [fetch]. *)
Definition sendMessage_fetch (message : js_string) : request :=
  {| url := API_URL ++ lit "/api/chat";
     method := lit "POST";
     headers := [(lit "Content-Type", lit "application/json")];
     body := JSON_stringify [(lit "message", message)] |}.

(** [sendMessage] from its [await] on: how the promise it returned
    settles, given how the [fetch] promise settled. *)
Definition sendMessage_resume (o : fetch_outcome) : completion js_value :=
  match o with
  | FetchRejects e => Throw e
  | FetchResolves res =>
      if negb (ok res)
      then Throw (ThrownError (lit "API error: " ++ Number_toString (status res)))
      else json res
  end.

(** [result.response]: the own property of an object; [undefined] on an
    array or a primitive, whose prototypes have no such property; a
    [TypeError] on [null] and [undefined]. *)
Definition read_response (result : js_value) : completion js_value :=
  match result with
  | VUndefined | VNull => Throw (ThrownError (null_read_message env result))
  | VObject props => Return (default VUndefined (props !! lit "response"))
  | VBool _ | VNumber _ | VString _ | VArray _ => Return VUndefined
  end.

(** The body of the [try] block once the call has settled: the value
    handed to [setResponse], or what the [catch] clause receives. *)
Definition try_block (o : fetch_outcome) : completion js_value :=
  match sendMessage_resume o with
  | Return result => read_response result
  | Throw e => Throw e
  end.

(** [err instanceof Error ? err.message : "An error occurred"] *)
Definition error_text (err : js_thrown) : js_string :=
  match err with
  | ThrownError message => message
  | ThrownOther => lit "An error occurred"
  end.

(** [handleSubmit] from its [await] on: [try], [catch] and [finally]. *)
Definition handleSubmit_resume (o : fetch_outcome) (st : page_state) : page_state :=
  setIsLoading false
    match try_block o with
    | Return v => setResponse v st
    | Throw err => setError (error_text err) st
    end.

(** The page together with the calls that have left it: [in_flight] are
    the calls whose promise is still pending, oldest first, each awaited by
    one suspended run of [handleSubmit]; [sent] is every call ever made. *)
Record world : Type := {
  page : page_state;
  in_flight : list request;
  sent : list request;
}.

Definition initial_world : world :=
  {| page := initial_state; in_flight := []; sent := [] |}.

(** [onChange] of the input: [setPrompt(e.target.value)]. *)
Definition onChange (v : js_string) (w : world) : world :=
  {| page := setPrompt v (page w); in_flight := in_flight w; sent := sent w |}.

(** [handleSubmit] up to its [await].  [e.preventDefault()] only stops the
    browser from navigating and has no effect on the world. *)
Definition handleSubmit (w : world) : world :=
  if negb (truthy (VString (trim (prompt (page w))))) then w
  else
    let st := setResponse (VString []) (setError [] (setIsLoading true (page w))) in
    let call := sendMessage_fetch (prompt (page w)) in
    {| page := st; in_flight := in_flight w ++ [call]; sent := sent w ++ [call] |}.

(** The [i]-th pending call settles with outcome [o] and the run of
    [handleSubmit] that awaits it is resumed; [None] when there is no such
    call. *)
Definition settle (i : nat) (o : fetch_outcome) (w : world) : option world :=
  match in_flight w !! i with
  | Some _ =>
      Some {| page := handleSubmit_resume o (page w);
              in_flight := delete i (in_flight w);
              sent := sent w |}
  | None => None
  end.

(** ** Transition systems *)

Inductive event : Type :=
| Change (v : js_string)
| Submit
| Settle (i : nat) (o : fetch_outcome).

(** The transitions of the component when its handlers are called
    directly, as a test harness can. *)
Inductive step : world -> event -> world -> Prop :=
| step_change w v : step w (Change v) (onChange v w)
| step_submit w : step w Submit (handleSubmit w)
| step_settle w i o w' : settle i o w = Some w' -> step w (Settle i o) w'.

(** Modelled from the spec: the [Input] and [Button] components of
    [components/ui], which receive the two [disabled] attributes, are not
    among the sources.  As the spec has it (disabled input during flight, a
    submit control disabled while loading, empty input suppressed by
    disabling submission), a disabled input takes no text and a form whose
    submit button is disabled is not submitted, neither by a click nor by the
    Enter key.  These are the transitions a user of the rendered page can
    cause; a call settles whenever the network decides. *)
Inductive ui_step : world -> event -> world -> Prop :=
| ui_change w v :
    input_disabled (Home (page w)) = false -> ui_step w (Change v) (onChange v w)
| ui_submit w :
    button_disabled (Home (page w)) = false -> ui_step w Submit (handleSubmit w)
| ui_settle w i o w' :
    settle i o w = Some w' -> ui_step w (Settle i o) w'.

Inductive ui_reachable : world -> Prop :=
| ui_reachable_initial : ui_reachable initial_world
| ui_reachable_step w ev w' :
    ui_reachable w -> ui_step w ev w' -> ui_reachable w'.

(** What holds of every world the page can be brought to: either nothing
    is pending and the page is not loading, or exactly one call is pending,
    the page is loading, shows no stale text and holds a prompt that is
    not blank. *)
Definition ui_invariant (w : world) : Prop :=
  (in_flight w = [] /\ isLoading (page w) = false)
  \/ (exists call, in_flight w = [call]
      /\ isLoading (page w) = true
      /\ response (page w) = VString []
      /\ error (page w) = []
      /\ trim (prompt (page w)) <> []).

End Client.

(** ** Concrete surroundings and runs, used to exercise the statements *)

(** No environment variable set, and the wording V8 uses for the
    [TypeError]. *)
Definition local_env : environment :=
  {| NEXT_PUBLIC_API_URL := None;
     null_read_message := fun v =>
       match v with
       | VUndefined => lit "Cannot read properties of undefined (reading 'response')"
       | _ => lit "Cannot read properties of null (reading 'response')"
       end |}.

(** A reply with status 200 whose body parses to [{"response": t}]. *)
Definition reply_with (t : js_string) : fetch_outcome :=
  FetchResolves
    {| status := 200;
       json := Return (VObject {[ lit "response" := VString t ]}) |}.

(** A reply with status 200 whose body parses to [{}]. *)
Definition reply_without_response : fetch_outcome :=
  FetchResolves {| status := 200; json := Return (VObject ∅) |}.

(** A reply with status [n] and an error payload. *)
Definition reply_status (n : N) : fetch_outcome :=
  FetchResolves
    {| status := n;
       json := Return (VObject {[ lit "detail" := VString (lit "quota exceeded") ]}) |}.

(** The user has typed [Hello]. *)
Definition typed_world : world := onChange (lit "Hello") initial_world.

(** The user has typed [Hello] and pressed Send. *)
Definition loading_world : world := handleSubmit local_env typed_world.

(** A page that still shows the answer of an earlier submission. *)
Definition answered_world : world :=
  {| page := {| prompt := lit " Hello again ";
                response := VString (lit "Paris is lovely");
                isLoading := false;
                error := [] |};
     in_flight := [];
     sent := [sendMessage_fetch local_env (lit "Hello")] |}.

(** The page after that call has come back with [{"response": ""}]. *)
Definition silent_world : world :=
  {| page := {| prompt := lit "Hello"; response := VString [];
                isLoading := false; error := [] |};
     in_flight := [];
     sent := [sendMessage_fetch local_env (lit "Hello")] |}.

(** ** Further notions used to state what the code keeps *)

(** The worlds the component can be brought to when its handlers are called
    directly, in any order. *)
Inductive reachable (env : environment) : world -> Prop :=
| reachable_initial : reachable env initial_world
| reachable_step w ev w' :
    reachable env w -> step env w ev w' -> reachable env w'.

(** A call [sendMessage] makes for a message that passes the guard of
    [handleSubmit]. *)
Definition guarded_call (env : environment) (call : request) : Prop :=
  exists p, call = sendMessage_fetch env p /\ ~ blank p.

(** A code unit that is no surrogate and no control character. *)
Definition plain_unit (c : N) : bool :=
  (32 <=? c) && (c <? 65536)
  && negb (is_leading_surrogate c) && negb (is_trailing_surrogate c).

(** Text in which every surrogate is half of a pair, which is what an
    encoder to UTF-8 needs to keep every character. *)
Fixpoint well_paired (s : js_string) : bool :=
  match s with
  | [] => true
  | c :: s' =>
      if is_leading_surrogate c then
        match s' with
        | d :: s'' => is_trailing_surrogate d && well_paired s''
        | [] => false
        end
      else negb (is_trailing_surrogate c) && well_paired s'
  end.

Definition is_digit (c : N) : bool := (48 <=? c) && (c <=? 57).

(** A unit of clean text: 16 bits wide and no control character. *)
Definition printable (c : N) : Prop := 32 <= c < 65536.

(** The values [JSON.parse] can build that are neither an object nor
    [null]. *)
Definition is_primitive_or_array (v : js_value) : bool :=
  match v with
  | VBool _ | VNumber _ | VString _ | VArray _ => true
  | VUndefined | VNull | VObject _ => false
  end.

(** The page a submission of prompt [p] ends with when its call settles
    with outcome [o]. *)
Definition settled_page (env : environment) (p : js_string) (o : fetch_outcome)
  : page_state :=
  match try_block env o with
  | Return v =>
      {| prompt := p; response := v; isLoading := false; error := [] |}
  | Throw err =>
      {| prompt := p; response := VString []; isLoading := false;
         error := error_text err |}
  end.

(** * Properties *)

(** ** Strings *)

Lemma truthy_string (s : js_string) : truthy (VString s) = true <-> s <> [].
Proof. destruct s; simpl; split; (congruence || done). Qed.

Lemma truthy_string_false (s : js_string) : truthy (VString s) = false <-> s = [].
Proof. destruct s; simpl; split; (congruence || done). Qed.

Lemma trimStart_nil (s : js_string) : trimStart s = [] <-> blank s.
Proof.
  unfold blank. induction s as [|c s IH]; simpl.
  - split; [constructor | done].
  - destruct (is_white_space c) eqn:Hc.
    + rewrite IH. split; [by constructor | by inversion 1].
    + split; [done | inversion 1; congruence].
Qed.

Lemma trimStart_blank_or_head (s : js_string) :
  trimStart s = [] \/ exists c s', trimStart s = c :: s' /\ is_white_space c = false.
Proof.
  induction s as [|c s IH]; simpl; [by left|].
  destruct (is_white_space c) eqn:Hc; [done | right; eauto].
Qed.

Lemma blank_rev (s : js_string) : blank (rev s) <-> blank s.
Proof.
  unfold blank. split; intros H.
  - rewrite <- (rev_involutive s). by apply List.Forall_rev.
  - by apply List.Forall_rev.
Qed.

Lemma rev_nil_inv {A} (l : list A) : rev l = [] -> l = [].
Proof. intros H. by rewrite <- (rev_involutive l), H. Qed.

(** The trimmed prompt is empty exactly when the prompt is blank. *)
Lemma trim_nil (s : js_string) : trim s = [] <-> blank s.
Proof.
  unfold trim, trimEnd. split.
  - intros H%rev_nil_inv. apply trimStart_nil in H.
    apply (proj1 (blank_rev _)) in H.
    destruct (trimStart_blank_or_head s) as [E | (c & s' & E & Hc)].
    + by apply trimStart_nil.
    + rewrite E in H. unfold blank in H. inversion H; congruence.
  - intros H. apply trimStart_nil in H. by rewrite H.
Qed.

Lemma trimStart_suffix (s : js_string) : exists p, s = p ++ trimStart s /\ blank p.
Proof.
  induction s as [|c s (p & E & Hp)]; simpl.
  - exists []. split; [done | constructor].
  - destruct (is_white_space c) eqn:Hc.
    + exists (c :: p). split; [simpl; congruence | by constructor].
    + exists []. split; [done | constructor].
Qed.

Lemma trimEnd_prefix (s : js_string) : exists q, s = trimEnd s ++ q /\ blank q.
Proof.
  destruct (trimStart_suffix (rev s)) as (p & E & Hp).
  exists (rev p). split; [|by apply blank_rev].
  unfold trimEnd. by rewrite <- rev_app_distr, <- E, rev_involutive.
Qed.

(** [trim] removes a blank prefix and a blank suffix and nothing else. *)
Lemma trim_decomposition (s : js_string) :
  exists p q, s = p ++ trim s ++ q /\ blank p /\ blank q.
Proof.
  destruct (trimStart_suffix s) as (p & E & Hp).
  destruct (trimEnd_prefix (trimStart s)) as (q & E' & Hq).
  exists p, q. unfold trim. by rewrite <- E', <- E.
Qed.

(** What [trim] returns neither starts nor ends with white space. *)
Lemma trim_ends (s : js_string) :
  (forall c t, trim s = c :: t -> is_white_space c = false)
  /\ (forall c t, trim s = t ++ [c] -> is_white_space c = false).
Proof.
  split; intros c t E.
  - destruct (trimStart_blank_or_head s) as [E0 | (c0 & s0 & E0 & Hc0)].
    + unfold trim in E. by rewrite E0 in E.
    + destruct (trimEnd_prefix (trimStart s)) as (q & Eq & Hq).
      fold (trim s) in Eq. rewrite E, E0 in Eq. by injection Eq as -> _.
  - unfold trim, trimEnd in E.
    destruct (trimStart_blank_or_head (rev (trimStart s))) as [E0 | (c0 & s0 & E0 & Hc0)].
    + rewrite E0 in E. by destruct t.
    + rewrite E0 in E. cbn [rev] in E. by apply app_inj_tail in E as [_ <-].
Qed.

Example trim_example :
  trim ([32; 9] ++ lit "Paris  is lovely" ++ [10; 160; 8232])
  = lit "Paris  is lovely".
Proof. reflexivity. Qed.

Example Number_toString_example :
  Number_toString 503 = lit "503" /\ Number_toString 0 = lit "0".
Proof. split; reflexivity. Qed.

(** ** The JSON text of a string can be read back *)

Lemma hex_value_digit (d : N) : d < 16 -> hex_value (hex_digit d) = Some d.
Proof.
  intros H.
  assert (Hd : d = 0 \/ d = 1 \/ d = 2 \/ d = 3 \/ d = 4 \/ d = 5 \/ d = 6 \/ d = 7
               \/ d = 8 \/ d = 9 \/ d = 10 \/ d = 11 \/ d = 12 \/ d = 13 \/ d = 14
               \/ d = 15) by lia.
  repeat (destruct Hd as [-> | Hd]; [reflexivity|]). by subst.
Qed.

Lemma hex4_UnicodeEscape (c : N) :
  code_unit c ->
  hex4 (hex_digit (c / 4096 mod 16)) (hex_digit (c / 256 mod 16))
       (hex_digit (c / 16 mod 16)) (hex_digit (c mod 16)) = Some c.
Proof.
  unfold code_unit, hex4. intros H.
  rewrite !hex_value_digit by (apply N.mod_lt; lia).
  f_equal.
  pose proof (N.Div0.div_mod c 16) as H0.
  pose proof (N.Div0.div_mod (c / 16) 16) as H1.
  pose proof (N.Div0.div_mod (c / 256) 16) as H2.
  rewrite N.Div0.div_div in H1. change (16 * 16) with 256 in H1.
  rewrite N.Div0.div_div in H2. change (256 * 16) with 4096 in H2.
  assert (H3 : c / 4096 < 16) by (apply N.Div0.div_lt_upper_bound; lia).
  rewrite (N.mod_small (c / 4096) 16) by done.
  lia.
Qed.

(** One branch of [quote_unit]: the unit is the literal [n], whose escape
    the parser reads by computation. *)
Ltac escape_case n E :=
  destruct (_ =? n) eqn:E; [apply N.eqb_eq in E; subst; reflexivity|].

Lemma parse_quote_unit (c : N) (rest : js_string) :
  code_unit c ->
  parse_string_body (quote_unit c ++ rest) = parsed_cons c (parse_string_body rest).
Proof.
  intros Hc. unfold quote_unit.
  escape_case 8 E8. escape_case 9 E9. escape_case 10 E10. escape_case 12 E12.
  escape_case 13 E13. escape_case 34 E34. escape_case 92 E92.
  destruct (_ || _) eqn:Hesc.
  - cbn [UnicodeEscape app parse_string_body].
    change (92 =? 34) with false. change (92 =? 92) with true.
    change (117 =? 34) with false. change (117 =? 92) with false.
    change (117 =? 47) with false. change (117 =? 98) with false.
    change (117 =? 102) with false. change (117 =? 110) with false.
    change (117 =? 114) with false. change (117 =? 116) with false.
    change (117 =? 117) with true. cbv iota.
    by rewrite hex4_UnicodeEscape.
  - apply orb_false_iff in Hesc as [Hesc _]. apply orb_false_iff in Hesc as [Hlt _].
    cbn [app parse_string_body]. by rewrite E34, E92, Hlt.
Qed.

Lemma parse_surrogate (c : N) (rest : js_string) :
  is_leading_surrogate c || is_trailing_surrogate c = true ->
  parse_string_body (c :: rest) = parsed_cons c (parse_string_body rest).
Proof.
  unfold is_leading_surrogate, is_trailing_surrogate. intros H.
  assert (55296 <= c)
    by (apply orb_true_iff in H as [H | H]; apply andb_true_iff in H as [H _];
        apply N.leb_le in H; lia).
  cbn [parse_string_body].
  destruct (c =? 34) eqn:E1; [apply N.eqb_eq in E1; lia|].
  destruct (c =? 92) eqn:E2; [apply N.eqb_eq in E2; lia|].
  destruct (c <? 32) eqn:E3; [apply N.ltb_lt in E3; lia|]. done.
Qed.

Lemma quote_units_pair (c d : N) (s : js_string) :
  quote_units (c :: d :: s) =
  if is_leading_surrogate c && is_trailing_surrogate d
  then c :: d :: quote_units s
  else quote_unit c ++ quote_units (d :: s).
Proof. reflexivity. Qed.

Lemma parse_quote_units_bounded (n : nat) (s k : js_string) :
  (length s <= n)%nat -> well_formed s ->
  parse_string_body (quote_units s ++ 34 :: k) = Some (s, k).
Proof.
  revert s. induction n as [|n IH]; intros s Hn Hs.
  - destruct s; [reflexivity | simpl in Hn; lia].
  - destruct s as [|c [|d s]]; [reflexivity | |].
    + apply Forall_cons in Hs as [Hc _]. cbn [quote_units].
      rewrite parse_quote_unit by done. reflexivity.
    + apply Forall_cons in Hs as [Hc Hs]. rewrite quote_units_pair.
      destruct (is_leading_surrogate c && is_trailing_surrogate d) eqn:Hpair.
      * apply andb_true_iff in Hpair as [Hl Ht].
        apply Forall_cons in Hs as [_ Hs].
        cbn [app]. rewrite !parse_surrogate by (rewrite ?Hl, ?Ht, ?orb_true_r; done).
        rewrite IH; [reflexivity | simpl in Hn; lia | done].
      * rewrite <- app_assoc, parse_quote_unit by done.
        rewrite IH; [reflexivity | simpl in Hn |- *; lia | done].
Qed.

(** Reading the quoted form of a string gives the string back, code unit
    for code unit. *)
Lemma parse_QuoteJSONString (s k : js_string) :
  well_formed s -> parse_string (QuoteJSONString s ++ k) = Some (s, k).
Proof.
  intros Hs. unfold QuoteJSONString, parse_string. cbn [app].
  change (34 =? 34) with true. cbv iota.
  rewrite <- app_assoc. by apply (parse_quote_units_bounded (length s)).
Qed.

Lemma well_formed_lit (s : string) : well_formed (lit s).
Proof.
  unfold well_formed, lit. apply List.Forall_map, List.Forall_forall.
  intros a _. unfold code_unit. pose proof (N_ascii_bounded a). lia.
Qed.

(** The body built for a message reads back as that message. *)
Lemma body_message_stringify (message : js_string) :
  well_formed message ->
  body_message (JSON_stringify [(lit "message", message)]) = Some message.
Proof.
  intros Hm. unfold JSON_stringify, body_message, serialize_property.
  cbn [map join_comma fst snd]. change (123 =? 123) with true. cbv iota.
  rewrite <- !app_assoc.
  rewrite parse_QuoteJSONString by apply well_formed_lit.
  cbn [app]. change (58 =? 58) with true. cbv iota.
  rewrite parse_QuoteJSONString by done.
  change (125 =? 125) with true. by rewrite bool_decide_eq_true_2.
Qed.

(** A quotation mark and a line feed are escaped, a surrogate pair is
    copied, a lone surrogate is written as a [\u] escape. *)
Example JSON_stringify_example :
  JSON_stringify [(lit "message", [104; 34; 10; 55357; 56832; 56832])]
  = lit "{" ++ [34] ++ lit "message" ++ [34; 58; 34]
    ++ [104; 92; 34; 92; 110] ++ [55357; 56832] ++ 92 :: lit "ude00" ++ [34; 125].
Proof. reflexivity. Qed.

Example API_URL_example :
  API_URL local_env = lit "http://localhost:8000"
  /\ API_URL {| NEXT_PUBLIC_API_URL := Some []; null_read_message := fun _ => [] |}
     = lit "http://localhost:8000"
  /\ API_URL {| NEXT_PUBLIC_API_URL := Some (lit "https://api.example.org");
                null_read_message := fun _ => [] |}
     = lit "https://api.example.org".
Proof. repeat split. Qed.

(** ** The two halves of [handleSubmit] *)

Section HandlerFacts.

Variable env : environment.

Lemma handleSubmit_blank (w : world) :
  trim (prompt (page w)) = [] -> handleSubmit env w = w.
Proof. intros H. unfold handleSubmit. by rewrite H. Qed.

Lemma handleSubmit_sends (w : world) :
  trim (prompt (page w)) <> [] ->
  handleSubmit env w =
  {| page := {| prompt := prompt (page w); response := VString [];
                isLoading := true; error := [] |};
     in_flight := in_flight w ++ [sendMessage_fetch env (prompt (page w))];
     sent := sent w ++ [sendMessage_fetch env (prompt (page w))] |}.
Proof.
  intros H. unfold handleSubmit.
  by destruct (trim (prompt (page w))).
Qed.

Lemma settle_pending (i : nat) (o : fetch_outcome) (w : world) (call : request) :
  in_flight w !! i = Some call ->
  settle env i o w =
  Some {| page := handleSubmit_resume env o (page w);
          in_flight := delete i (in_flight w);
          sent := sent w |}.
Proof. intros H. unfold settle. by rewrite H. Qed.

Lemma settle_inv (i : nat) (o : fetch_outcome) (w w' : world) :
  settle env i o w = Some w' ->
  is_Some (in_flight w !! i)
  /\ page w' = handleSubmit_resume env o (page w)
  /\ in_flight w' = delete i (in_flight w)
  /\ sent w' = sent w.
Proof.
  unfold settle. destruct (in_flight w !! i) eqn:E; [|done].
  intros [= <-]. eauto.
Qed.

Lemma resume_prompt (o : fetch_outcome) (st : page_state) :
  prompt (handleSubmit_resume env o st) = prompt st.
Proof. unfold handleSubmit_resume. by destruct (try_block env o). Qed.

Lemma resume_isLoading (o : fetch_outcome) (st : page_state) :
  isLoading (handleSubmit_resume env o st) = false.
Proof. reflexivity. Qed.

(** The page after a settlement, by what the [try] block came to. *)
Lemma resume_cases (o : fetch_outcome) (st : page_state) :
  handleSubmit_resume env o st =
  match try_block env o with
  | Return v =>
      {| prompt := prompt st; response := v; isLoading := false; error := error st |}
  | Throw err =>
      {| prompt := prompt st; response := response st; isLoading := false;
         error := error_text err |}
  end.
Proof. unfold handleSubmit_resume. by destruct (try_block env o). Qed.

Lemma button_disabled_spec (st : page_state) :
  button_disabled (Home st) = false <->
  isLoading st = false /\ trim (prompt st) <> [].
Proof.
  cbn [Home button_disabled]. rewrite orb_false_iff, negb_false_iff.
  by rewrite truthy_string.
Qed.

Lemma shows_error_spec (st : page_state) :
  shows_error st = truthy (VString (error st)).
Proof.
  unfold shows_error. cbn [Home error_child]. unfold js_and.
  by destruct (truthy _).
Qed.

Lemma shows_response_spec (st : page_state) :
  shows_response st = truthy (response st).
Proof.
  unfold shows_response. cbn [Home response_child]. unfold js_and.
  by destruct (truthy _).
Qed.

(** ** The invariant of the rendered page *)

Lemma ui_invariant_initial : ui_invariant initial_world.
Proof. by left. Qed.

Lemma ui_invariant_step (w : world) (ev : event) (w' : world) :
  ui_invariant w -> ui_step env w ev w' -> ui_invariant w'.
Proof.
  intros Hinv Hstep. destruct Hstep as [w v Hin | w Hbtn | w i o w' Hset].
  - cbn [Home input_disabled] in Hin.
    destruct Hinv as [[Hq Hl] | (call & _ & Hl & _)]; [|congruence].
    by left.
  - apply button_disabled_spec in Hbtn as [Hl Hp].
    destruct Hinv as [[Hq _] | (call & _ & Hl' & _)]; [|congruence].
    rewrite handleSubmit_sends by done. right.
    exists (sendMessage_fetch env (prompt (page w))). cbn. by rewrite Hq.
  - apply settle_inv in Hset as ([call Hi] & Hpage & Hq & _).
    destruct Hinv as [[Hnil _] | (call' & Hone & _)].
    + by rewrite Hnil in Hi.
    + left. rewrite Hq, Hpage, Hone. rewrite Hone in Hi.
      destruct i as [|i]; [done | by destruct i].
Qed.

Lemma ui_reachable_invariant (w : world) : ui_reachable env w -> ui_invariant w.
Proof.
  induction 1 as [|w ev w' _ IH Hstep];
    [apply ui_invariant_initial | by eapply ui_invariant_step].
Qed.

(** A single submission from any idle state, also one no page run leads
    to: loading and disabled from the call to its settlement, idle and
    enabled after it. *)
Lemma submission_toggles_loading (w : world) (o : fetch_outcome) :
  trim (prompt (page w)) <> [] ->
  in_flight w = [] ->
  isLoading (page (handleSubmit env w)) = true
  /\ button_disabled (Home (page (handleSubmit env w))) = true
  /\ exists w',
       settle env 0 o (handleSubmit env w) = Some w'
       /\ in_flight w' = []
       /\ isLoading (page w') = false
       /\ button_disabled (Home (page w')) = false.
Proof.
  intros Hp Hq. rewrite handleSubmit_sends by done. rewrite Hq.
  split; [done|]. split; [done|]. eexists. split.
  - by apply (settle_pending 0 o _ (sendMessage_fetch env (prompt (page w)))).
  - split; [done|]. split; [done|].
    apply button_disabled_spec. cbn [page]. by rewrite resume_prompt.
Qed.

End HandlerFacts.

(** * The claims *)

(** C1.  For a prompt whose trimmed form is not empty, one run of the submit
    handler with no call in flight makes exactly one outbound call: a POST
    to [API_URL/api/chat] with a JSON content type, whose body is the JSON
    text [{"message": p}] for the prompt [p] as it stands in the input, not
    trimmed; the body reads back as [p], and the settlement of the call
    makes no further call. *)
Theorem submit_sends_one_call (env : environment) (w : world) :
  well_formed (prompt (page w)) ->
  trim (prompt (page w)) <> [] ->
  in_flight w = [] ->
  let p := prompt (page w) in
  let call :=
    {| url := API_URL env ++ lit "/api/chat";
       method := lit "POST";
       headers := [(lit "Content-Type", lit "application/json")];
       body := 123 :: QuoteJSONString (lit "message")
                   ++ 58 :: QuoteJSONString p ++ [125] |} in
  sent (handleSubmit env w) = sent w ++ [call]
  /\ in_flight (handleSubmit env w) = [call]
  /\ body_message (body call) = Some p
  /\ forall o, exists w',
       settle env 0 o (handleSubmit env w) = Some w'
       /\ sent w' = sent w ++ [call]
       /\ in_flight w' = [].
Proof.
  intros Hwf Hp Hq p call.
  assert (Hcall : sendMessage_fetch env p = call).
  { unfold sendMessage_fetch, call, JSON_stringify, serialize_property.
    cbn [map join_comma fst snd]. by rewrite <- app_assoc. }
  rewrite handleSubmit_sends by done. fold p. rewrite Hcall, Hq.
  cbn [sent in_flight app]. split; [done|]. split; [done|]. split.
  - rewrite <- Hcall. by apply body_message_stringify.
  - intros o. eexists. split; [by apply (settle_pending env 0 o _ call) | done].
Qed.

(** C2.  For a prompt that is empty or made of white space only, the submit
    handler makes no outbound call and leaves the whole client (loading flag,
    response, error, prompt, pending calls) as it was. *)
Theorem blank_prompt_sends_nothing (env : environment) (w : world) :
  blank (prompt (page w)) -> handleSubmit env w = w.
Proof. intros H. by apply handleSubmit_blank, trim_nil. Qed.

(** C3.  In every state the page can reach, while a call is in flight the
    loading flag is true and the submit button is disabled, the call can
    settle with any outcome, and after it settles, whether it resolved or
    rejected, the loading flag is false, nothing is in flight and the submit
    button is enabled again. *)
Theorem loading_while_in_flight (env : environment) (w : world) :
  ui_reachable env w ->
  (in_flight w <> [] ->
     isLoading (page w) = true
     /\ button_disabled (Home (page w)) = true
     /\ forall o, exists w', settle env 0 o w = Some w')
  /\ (forall i o w', settle env i o w = Some w' ->
        in_flight w' = []
        /\ isLoading (page w') = false
        /\ button_disabled (Home (page w')) = false).
Proof.
  intros Hreach. pose proof (ui_reachable_invariant env w Hreach) as Hinv.
  split.
  - intros Hq. destruct Hinv as [[Hnil _] | (call & Hone & Hl & _)]; [done|].
    repeat split; [done | by cbn; rewrite Hl |].
    intros o. eexists. apply (settle_pending env 0 o w call). by rewrite Hone.
  - intros i o w' Hset.
    pose proof (ui_invariant_step env w (Settle i o) w' Hinv (ui_settle env w i o w' Hset))
      as [[Hnil Hl] | (call & Hone & _)].
    + repeat split; [done.. |]. apply button_disabled_spec. split; [done|].
      apply settle_inv in Hset as ([call Hi] & -> & _).
      rewrite resume_prompt.
      destruct Hinv as [[Hq _] | (_ & _ & _ & _ & _ & Hp)]; [by rewrite Hq in Hi | done].
    + apply settle_inv in Hset as ([call' Hi] & _ & Hq & _).
      destruct Hinv as [[Hnil _] | (c & Hc & _)]; [by rewrite Hnil in Hi|].
      rewrite Hc in Hq, Hi. rewrite Hq in Hone.
      destruct i as [|[|i]]; done.
Qed.

(** C4, as the code has it.  The handler itself is not gated by the loading
    flag: called with a prompt that is not blank it issues a call whatever
    the flag says.  The gate is the rendering: in every state the page can
    reach at most one call is in flight, the loading flag is true exactly
    when one is, and while it is true the input and the submit button are
    disabled, so that the only event the page admits is the settlement of
    that call, and no event makes a new outbound call. *)
Theorem one_call_in_flight_through_the_page (env : environment) (w : world) :
  ui_reachable env w ->
  (length (in_flight w) <= 1)%nat
  /\ (isLoading (page w) = true <-> in_flight w <> [])
  /\ (isLoading (page w) = true ->
        input_disabled (Home (page w)) = true
        /\ button_disabled (Home (page w)) = true
        /\ forall ev w', ui_step env w ev w' ->
             (exists o, ev = Settle 0 o) /\ sent w' = sent w /\ in_flight w' = [])
  /\ (trim (prompt (page w)) <> [] ->
        in_flight (handleSubmit env w)
        = in_flight w ++ [sendMessage_fetch env (prompt (page w))]).
Proof.
  intros Hreach. pose proof (ui_reachable_invariant env w Hreach) as Hinv.
  split; [|split; [|split]].
  - destruct Hinv as [[-> _] | (call & -> & _)]; simpl; lia.
  - destruct Hinv as [[-> ->] | (call & -> & -> & _)]; split; done.
  - intros Hl. split; [done|]. split; [by cbn; rewrite Hl|].
    intros ev w' Hstep. destruct Hstep as [w v Hin | w Hbtn | w i o w' Hset].
    + cbn in Hin. congruence.
    + apply button_disabled_spec in Hbtn as [? _]. congruence.
    + destruct Hinv as [[_ ?] | (call & Hone & _)]; [congruence|].
      apply settle_inv in Hset as ([c Hi] & _ & Hq & Hsent).
      rewrite Hone in Hi, Hq. destruct i as [|[|i]]; [|done..].
      split; [by exists o | done].
  - intros Hp. by rewrite handleSubmit_sends.
Qed.

(** C5, as the code has it.  After a submission made through the page has
    settled, with a response state that is a string or [undefined], the
    response and the error are never both shown.  When the [try] block came
    to a value, that value is the response and no error is kept or shown, and
    if the value is a string or [undefined] the response is shown exactly
    when it is a string that is not empty; when it threw, the text of what
    was thrown is the error, the response is the empty string and is not
    shown, and the error is shown exactly when that text is not empty.  So a
    success with an empty or absent response, and a failure with an empty
    message, show neither. *)
Theorem settled_submission_display
    (env : environment) (w : world) (i : nat) (o : fetch_outcome) (w' : world) :
  ui_reachable env w ->
  settle env i o w = Some w' ->
  (is_string_or_undefined (response (page w')) = true ->
     shows_response (page w') && shows_error (page w') = false)
  /\ match try_block env o with
     | Return v =>
         response (page w') = v
         /\ error (page w') = []
         /\ shows_error (page w') = false
         /\ (is_string_or_undefined v = true ->
               shows_response (page w') = truthy v
               /\ (shows_response (page w') = true
                   <-> exists t, v = VString t /\ t <> []))
     | Throw err =>
         error (page w') = error_text err
         /\ shows_error (page w') = truthy (VString (error_text err))
         /\ (shows_error (page w') = true <-> error_text err <> [])
         /\ response (page w') = VString []
         /\ shows_response (page w') = false
     end.
Proof.
  intros Hreach Hset. pose proof (ui_reachable_invariant env w Hreach) as Hinv.
  apply settle_inv in Hset as ([call Hi] & Hpage & _).
  destruct Hinv as [[Hnil _] | (c & _ & _ & Hr & He & _)]; [by rewrite Hnil in Hi|].
  rewrite shows_response_spec, shows_error_spec, Hpage, resume_cases.
  destruct (try_block env o) as [v | err]; cbn [response error].
  - rewrite He. cbn [truthy]. split; [by rewrite andb_false_r|].
    split; [done|]. split; [done|]. split; [done|].
    intros Hv. split; [done|]. destruct v as [| | | |t| |]; try done.
    + split; [done | by intros (t & ? & _)].
    + rewrite truthy_string. split.
      * intros Ht. by exists t.
      * by intros (t' & [= <-] & Ht).
  - rewrite Hr. cbn [truthy andb]. split; [done|]. split; [done|].
    split; [done|]. split; [apply truthy_string | done].
Qed.

(** C6.  For every response whose status is not in 200..299, [sendMessage]
    throws an [Error] with the message [API error: <status>], and a submission
    that settles with it ends not loading, showing that message, which is not
    empty, in the error card, and showing no response, whatever response the
    page showed before the submission. *)
Theorem non_2xx_shows_error (env : environment) (w : world) (res : Response) :
  ok res = false ->
  trim (prompt (page w)) <> [] ->
  in_flight w = [] ->
  let message := lit "API error: " ++ Number_toString (status res) in
  sendMessage_resume (FetchResolves res) = Throw (ThrownError message)
  /\ message <> []
  /\ exists w',
       settle env 0 (FetchResolves res) (handleSubmit env w) = Some w'
       /\ isLoading (page w') = false
       /\ error (page w') = message
       /\ error_child (Home (page w')) = JsxCard None WsNormal (VString message)
       /\ response (page w') = VString []
       /\ shows_response (page w') = false.
Proof.
  intros Hok Hp Hq message.
  assert (Hthrow : sendMessage_resume (FetchResolves res) = Throw (ThrownError message)).
  { unfold sendMessage_resume. by rewrite Hok. }
  split; [done|]. split; [done|].
  rewrite handleSubmit_sends by done. rewrite Hq. eexists. split.
  - by apply (settle_pending env 0 _ _ (sendMessage_fetch env (prompt (page w)))).
  - cbn [page]. rewrite shows_response_spec, resume_cases.
    unfold try_block. rewrite Hthrow. cbn [error_text isLoading error response Home error_child].
    repeat split.
Qed.

(** C7.  For every call that succeeds with a body that parses to an object
    whose [response] is the string [t], the submission ends with [t] itself
    in the response state, and the page puts exactly [t] on display: the text
    of the response child is [t], in a paragraph that keeps white space and
    line breaks when [t] is not empty, and no error is shown. *)
Theorem reply_text_is_displayed
    (env : environment) (w : world) (res : Response)
    (props : gmap js_string js_value) (t : js_string) :
  trim (prompt (page w)) <> [] ->
  in_flight w = [] ->
  ok res = true ->
  json res = Return (VObject props) ->
  props !! lit "response" = Some (VString t) ->
  exists w',
    settle env 0 (FetchResolves res) (handleSubmit env w) = Some w'
    /\ isLoading (page w') = false
    /\ response (page w') = VString t
    /\ child_text (response_child (Home (page w'))) = Some t
    /\ (t <> [] ->
        response_child (Home (page w'))
        = JsxCard (Some (lit "Response")) WsPreWrap (VString t))
    /\ shows_error (page w') = false.
Proof.
  intros Hp Hq Hok Hjson Hprops.
  assert (Htry : try_block env (FetchResolves res) = Return (VString t)).
  { unfold try_block, sendMessage_resume. rewrite Hok, Hjson. cbn [negb read_response].
    by rewrite Hprops. }
  rewrite handleSubmit_sends by done. rewrite Hq. eexists. split.
  - by apply (settle_pending env 0 _ _ (sendMessage_fetch env (prompt (page w)))).
  - cbn [page]. rewrite shows_error_spec, resume_cases, Htry.
    cbn [isLoading response error Home response_child]. unfold js_and.
    repeat split; by destruct t.
Qed.

(** C8.  A submission whose trimmed prompt is not empty sets, in the step
    that issues the call and before anything is awaited, the loading flag to
    true and the response and the error to the empty string, so neither card
    is shown; the page then admits no event but a settlement, and in every
    state the page can reach with a call in flight the flag is true and the
    response and the error are empty and not shown. *)
Theorem submit_clears_stale_text (env : environment) (w : world) :
  trim (prompt (page w)) <> [] ->
  page (handleSubmit env w)
  = {| prompt := prompt (page w); response := VString [];
       isLoading := true; error := [] |}
  /\ in_flight (handleSubmit env w)
     = in_flight w ++ [sendMessage_fetch env (prompt (page w))]
  /\ shows_response (page (handleSubmit env w)) = false
  /\ shows_error (page (handleSubmit env w)) = false
  /\ (forall ev w', ui_step env (handleSubmit env w) ev w' -> exists i o, ev = Settle i o)
  /\ (forall w', ui_reachable env w' -> in_flight w' <> [] ->
        isLoading (page w') = true
        /\ response (page w') = VString []
        /\ error (page w') = []
        /\ shows_response (page w') = false
        /\ shows_error (page w') = false).
Proof.
  intros Hp. rewrite handleSubmit_sends by done.
  split; [done|]. split; [done|]. split; [done|]. split; [done|]. split.
  - intros ev w' Hstep. inversion Hstep as [w0 v Hin | w0 Hbtn | w0 i o w1 Hset]; subst.
    + by cbn in Hin.
    + by cbn in Hbtn.
    + eauto.
  - intros w' Hreach Hq.
    destruct (ui_reachable_invariant env w' Hreach)
      as [[Hnil _] | (call & _ & Hl & Hr & He & _)]; [done|].
    by rewrite shows_response_spec, shows_error_spec, Hl, Hr, He.
Qed.

(** C9.  No part of a submission writes the prompt: every transition of the
    component other than the input's own change event leaves it as it was,
    and so does a submission from its start to the settlement of its call;
    while that call is pending the input is disabled, and the call of a
    prompt that is not blank can settle with any outcome. *)
Theorem submission_keeps_prompt (env : environment) (w : world) :
  (forall ev w', step env w ev w' -> (forall v, ev <> Change v) ->
     prompt (page w') = prompt (page w))
  /\ prompt (page (handleSubmit env w)) = prompt (page w)
  /\ (forall i o w', settle env i o (handleSubmit env w) = Some w' ->
        prompt (page w') = prompt (page w)
        /\ input_value (Home (page w')) = prompt (page w))
  /\ (trim (prompt (page w)) <> [] ->
        input_disabled (Home (page (handleSubmit env w))) = true
        /\ forall o, exists w',
             settle env (length (in_flight w)) o (handleSubmit env w) = Some w').
Proof.
  assert (Hsub : prompt (page (handleSubmit env w)) = prompt (page w)).
  { unfold handleSubmit. by destruct (negb _). }
  assert (Hset : forall i o w0 w', settle env i o w0 = Some w' ->
                   prompt (page w') = prompt (page w0)).
  { intros i o w0 w' H. apply settle_inv in H as (_ & -> & _). apply resume_prompt. }
  split; [|split; [done|split]].
  - intros ev w' Hstep Hev. destruct Hstep as [w v | w | w i o w' H].
    + by destruct (Hev v).
    + done.
    + by eapply Hset.
  - intros i o w' H. apply Hset in H. cbn [Home input_value]. by rewrite H.
  - intros Hp. rewrite handleSubmit_sends by done. split; [done|].
    intros o. eexists.
    apply (settle_pending env _ o _ (sendMessage_fetch env (prompt (page w)))).
    cbn [in_flight]. by rewrite lookup_app_r, Nat.sub_diag.
Qed.

(** C10.  There are successful calls after which nothing is shown: when the
    status is in 200..299 and the body parses to an object whose [response]
    is the empty string, or which has no [response] at all, the submission
    ends not loading, with neither the response card nor the error card on
    the page. *)
Theorem empty_reply_shows_nothing
    (env : environment) (w : world) (res : Response)
    (props : gmap js_string js_value) :
  trim (prompt (page w)) <> [] ->
  in_flight w = [] ->
  ok res = true ->
  json res = Return (VObject props) ->
  props !! lit "response" = Some (VString []) \/ props !! lit "response" = None ->
  exists w',
    settle env 0 (FetchResolves res) (handleSubmit env w) = Some w'
    /\ isLoading (page w') = false
    /\ shows_response (page w') = false
    /\ shows_error (page w') = false
    /\ (response (page w') = VString [] \/ response (page w') = VUndefined)
    /\ error (page w') = [].
Proof.
  intros Hp Hq Hok Hjson Hprops.
  assert (Htry : try_block env (FetchResolves res) = Return (VString [])
                 \/ try_block env (FetchResolves res) = Return VUndefined).
  { unfold try_block, sendMessage_resume. rewrite Hok, Hjson. cbn [negb read_response].
    destruct Hprops as [-> | ->]; [by left | by right]. }
  rewrite handleSubmit_sends by done. rewrite Hq. eexists. split.
  - by apply (settle_pending env 0 _ _ (sendMessage_fetch env (prompt (page w)))).
  - cbn [page]. rewrite shows_response_spec, shows_error_spec, resume_cases.
    destruct Htry as [-> | ->]; cbn; auto 10.
Qed.

(** * The statements at concrete inputs *)

Lemma typed_world_reachable : ui_reachable local_env typed_world.
Proof.
  apply (ui_reachable_step local_env initial_world (Change (lit "Hello")));
    [apply ui_reachable_initial | by apply ui_change].
Qed.

Lemma loading_world_reachable : ui_reachable local_env loading_world.
Proof.
  apply (ui_reachable_step local_env typed_world Submit);
    [apply typed_world_reachable | by apply ui_submit].
Qed.

Lemma submit_sends_one_call_witness :
  well_formed (prompt (page answered_world))
  /\ trim (prompt (page answered_world)) <> []
  /\ in_flight answered_world = []
  /\ sent (handleSubmit local_env answered_world)
     = sent answered_world
       ++ [{| url := lit "http://localhost:8000/api/chat";
              method := lit "POST";
              headers := [(lit "Content-Type", lit "application/json")];
              body := 123 :: QuoteJSONString (lit "message")
                      ++ 58 :: QuoteJSONString (lit " Hello again ") ++ [125] |}]
  /\ body_message (body (sendMessage_fetch local_env (lit " Hello again ")))
     = Some (lit " Hello again ").
Proof.
  assert (H1 : well_formed (prompt (page answered_world))) by apply well_formed_lit.
  assert (H2 : trim (prompt (page answered_world)) <> []) by (vm_compute; discriminate).
  assert (H3 : in_flight answered_world = []) by reflexivity.
  destruct (submit_sends_one_call local_env answered_world H1 H2 H3) as (Hs & _ & Hb & _).
  split; [exact H1|]. split; [exact H2|]. split; [exact H3|]. split; [exact Hs | exact Hb].
Defined.

Lemma blank_prompt_sends_nothing_witness :
  blank (prompt (page (onChange [32; 9; 160; 10] answered_world)))
  /\ handleSubmit local_env (onChange [32; 9; 160; 10] answered_world)
     = onChange [32; 9; 160; 10] answered_world.
Proof.
  assert (H : blank (prompt (page (onChange [32; 9; 160; 10] answered_world))))
    by (repeat constructor).
  split; [exact H | exact (blank_prompt_sends_nothing local_env _ H)].
Defined.

Lemma loading_while_in_flight_witness :
  ui_reachable local_env loading_world
  /\ in_flight loading_world <> []
  /\ isLoading (page loading_world) = true
  /\ button_disabled (Home (page loading_world)) = true
  /\ (forall o w', settle local_env 0 o loading_world = Some w' ->
        isLoading (page w') = false /\ button_disabled (Home (page w')) = false).
Proof.
  pose proof (loading_while_in_flight local_env loading_world loading_world_reachable)
    as [Hflight Hdone].
  assert (Hq : in_flight loading_world <> []) by (vm_compute; discriminate).
  destruct (Hflight Hq) as (Hl & Hb & _).
  split; [exact loading_world_reachable|]. split; [exact Hq|].
  split; [exact Hl|]. split; [exact Hb|].
  intros o w' Hset. destruct (Hdone 0%nat o w' Hset) as (_ & ? & ?). by split.
Defined.

Lemma handler_not_gated_by_loading :
  ui_reachable local_env loading_world
  /\ isLoading (page loading_world) = true
  /\ length (in_flight loading_world) = 1%nat
  /\ step local_env loading_world Submit (handleSubmit local_env loading_world)
  /\ length (in_flight (handleSubmit local_env loading_world)) = 2%nat
  /\ length (sent (handleSubmit local_env loading_world)) = 2%nat.
Proof.
  split; [exact loading_world_reachable|].
  split; [reflexivity|]. split; [reflexivity|].
  split; [apply step_submit|]. split; reflexivity.
Qed.

Lemma one_call_in_flight_through_the_page_witness :
  ui_reachable local_env loading_world
  /\ (length (in_flight loading_world) <= 1)%nat
  /\ isLoading (page loading_world) = true
  /\ button_disabled (Home (page loading_world)) = true
  /\ (forall ev w', ui_step local_env loading_world ev w' -> sent w' = sent loading_world).
Proof.
  destruct (one_call_in_flight_through_the_page local_env loading_world
              loading_world_reachable) as (Hlen & _ & Hgate & _).
  assert (Hl : isLoading (page loading_world) = true) by reflexivity.
  destruct (Hgate Hl) as (_ & Hb & Hev).
  split; [exact loading_world_reachable|]. split; [exact Hlen|].
  split; [exact Hl|]. split; [exact Hb|].
  intros ev w' Hstep. by destruct (Hev ev w' Hstep) as (_ & ? & _).
Defined.

Lemma empty_reply_shows_neither :
  ui_reachable local_env loading_world
  /\ settle local_env 0 (reply_with []) loading_world = Some silent_world
  /\ shows_response (page silent_world) = false
  /\ shows_error (page silent_world) = false
  /\ xorb (shows_response (page silent_world)) (shows_error (page silent_world)) = false.
Proof.
  split; [exact loading_world_reachable|].
  split; [vm_compute; reflexivity|]. by repeat split.
Qed.

Lemma settled_submission_display_witness :
  ui_reachable local_env loading_world
  /\ settle local_env 0 (reply_with (lit "Paris is lovely")) loading_world
     = Some {| page := {| prompt := lit "Hello";
                          response := VString (lit "Paris is lovely");
                          isLoading := false; error := [] |};
               in_flight := [];
               sent := sent loading_world |}
  /\ shows_response
       {| prompt := lit "Hello"; response := VString (lit "Paris is lovely");
          isLoading := false; error := [] |} = true
  /\ shows_error
       {| prompt := lit "Hello"; response := VString (lit "Paris is lovely");
          isLoading := false; error := [] |} = false.
Proof.
  assert (Hset : settle local_env 0 (reply_with (lit "Paris is lovely")) loading_world
                 = Some {| page := {| prompt := lit "Hello";
                                      response := VString (lit "Paris is lovely");
                                      isLoading := false; error := [] |};
                           in_flight := [];
                           sent := sent loading_world |})
    by (vm_compute; reflexivity).
  destruct (settled_submission_display local_env loading_world 0
              (reply_with (lit "Paris is lovely")) _ loading_world_reachable Hset)
    as (_ & Hcase).
  split; [exact loading_world_reachable|]. split; [exact Hset|].
  destruct Hcase as (_ & _ & He & Hr). destruct (Hr eq_refl) as [Hr' _].
  split; [exact Hr' | exact He].
Defined.

Lemma non_2xx_shows_error_witness :
  ok {| status := 503; json := Throw (ThrownError (lit "Unexpected token")) |} = false
  /\ trim (prompt (page answered_world)) <> []
  /\ in_flight answered_world = []
  /\ sendMessage_resume
       (FetchResolves {| status := 503; json := Throw (ThrownError (lit "Unexpected token")) |})
     = Throw (ThrownError (lit "API error: 503"))
  /\ exists w',
       settle local_env 0
         (FetchResolves {| status := 503; json := Throw (ThrownError (lit "Unexpected token")) |})
         (handleSubmit local_env answered_world) = Some w'
       /\ error (page w') = lit "API error: 503"
       /\ shows_response (page w') = false.
Proof.
  assert (H1 : ok {| status := 503; json := Throw (ThrownError (lit "Unexpected token")) |}
               = false) by reflexivity.
  assert (H2 : trim (prompt (page answered_world)) <> []) by (vm_compute; discriminate).
  assert (H3 : in_flight answered_world = []) by reflexivity.
  destruct (non_2xx_shows_error local_env answered_world _ H1 H2 H3)
    as (Hthrow & _ & w' & Hset & _ & He & _ & _ & Hs).
  split; [exact H1|]. split; [exact H2|]. split; [exact H3|]. split; [exact Hthrow|].
  exists w'. split; [exact Hset|]. split; [exact He | exact Hs].
Defined.

Lemma reply_text_is_displayed_witness :
  trim (prompt (page typed_world)) <> []
  /\ in_flight typed_world = []
  /\ exists w',
       settle local_env 0 (reply_with (lit "Paris is lovely")) (handleSubmit local_env typed_world)
       = Some w'
       /\ response (page w') = VString (lit "Paris is lovely")
       /\ response_child (Home (page w'))
          = JsxCard (Some (lit "Response")) WsPreWrap (VString (lit "Paris is lovely"))
       /\ shows_error (page w') = false.
Proof.
  assert (H1 : trim (prompt (page typed_world)) <> []) by (vm_compute; discriminate).
  assert (H2 : in_flight typed_world = []) by reflexivity.
  destruct (reply_text_is_displayed local_env typed_world
              {| status := 200;
                 json := Return (VObject {[ lit "response" := VString (lit "Paris is lovely") ]}) |}
              {[ lit "response" := VString (lit "Paris is lovely") ]}
              (lit "Paris is lovely") H1 H2 eq_refl eq_refl
              (lookup_singleton_eq _ _))
    as (w' & Hset & _ & Hr & _ & Hcard & He).
  split; [exact H1|]. split; [exact H2|].
  exists w'. split; [exact Hset|]. split; [exact Hr|].
  split; [apply Hcard; discriminate | exact He].
Defined.

Lemma submit_clears_stale_text_witness :
  trim (prompt (page answered_world)) <> []
  /\ shows_response (page answered_world) = true
  /\ page (handleSubmit local_env answered_world)
     = {| prompt := lit " Hello again "; response := VString [];
          isLoading := true; error := [] |}
  /\ shows_response (page (handleSubmit local_env answered_world)) = false
  /\ shows_error (page (handleSubmit local_env answered_world)) = false.
Proof.
  assert (H : trim (prompt (page answered_world)) <> []) by (vm_compute; discriminate).
  destruct (submit_clears_stale_text local_env answered_world H)
    as (Hpage & _ & Hr & He & _).
  split; [exact H|]. split; [reflexivity|]. split; [exact Hpage|].
  split; [exact Hr | exact He].
Defined.

Lemma submission_keeps_prompt_witness :
  trim (prompt (page answered_world)) <> []
  /\ exists w',
       settle local_env 0 (reply_status 500) (handleSubmit local_env answered_world) = Some w'
       /\ prompt (page w') = lit " Hello again ".
Proof.
  assert (H : trim (prompt (page answered_world)) <> []) by (vm_compute; discriminate).
  destruct (submission_keeps_prompt local_env answered_world) as (_ & _ & Hkeep & Hlive).
  destruct (Hlive H) as (_ & Hsettles).
  destruct (Hsettles (reply_status 500)) as (w' & Hset).
  split; [exact H|]. exists w'. split; [exact Hset|].
  exact (proj1 (Hkeep _ _ _ Hset)).
Defined.

Lemma empty_reply_shows_nothing_witness :
  trim (prompt (page typed_world)) <> []
  /\ in_flight typed_world = []
  /\ (exists w',
        settle local_env 0 (reply_with []) (handleSubmit local_env typed_world) = Some w'
        /\ isLoading (page w') = false
        /\ shows_response (page w') = false
        /\ shows_error (page w') = false)
  /\ (exists w',
        settle local_env 0 reply_without_response (handleSubmit local_env typed_world) = Some w'
        /\ isLoading (page w') = false
        /\ shows_response (page w') = false
        /\ shows_error (page w') = false).
Proof.
  assert (H1 : trim (prompt (page typed_world)) <> []) by (vm_compute; discriminate).
  assert (H2 : in_flight typed_world = []) by reflexivity.
  split; [exact H1|]. split; [exact H2|]. split.
  - destruct (empty_reply_shows_nothing local_env typed_world
                {| status := 200; json := Return (VObject {[ lit "response" := VString [] ]}) |}
                {[ lit "response" := VString [] ]} H1 H2 eq_refl eq_refl
                (or_introl (lookup_singleton_eq _ _)))
      as (w' & Hset & Hl & Hr & He & _).
    exists w'. split; [exact Hset|]. split; [exact Hl|]. split; [exact Hr | exact He].
  - destruct (empty_reply_shows_nothing local_env typed_world
                {| status := 200; json := Return (VObject ∅) |}
                ∅ H1 H2 eq_refl eq_refl (or_intror (lookup_empty _)))
      as (w' & Hset & Hl & Hr & He & _).
    exists w'. split; [exact Hset|]. split; [exact Hl|]. split; [exact Hr | exact He].
Defined.

(** Why the statements about what is shown speak of the rendered page: two
    overlapping runs of the handler, which only a direct call can start,
    leave the error of the first and the response of the second on the page
    together. *)
Example direct_calls_can_show_both :
  match settle local_env 0 (reply_status 500) (handleSubmit local_env loading_world) with
  | Some w1 =>
      match settle local_env 0 (reply_with (lit "Hi")) w1 with
      | Some w2 =>
          shows_response (page w2) && shows_error (page w2)
          && negb (isLoading (page w2))
      | None => false
      end
  | None => false
  end = true.
Proof. vm_compute. reflexivity. Qed.

(** A body that parses to [null] is a failure of the submission although the
    status is 200: the property read throws and the engine's message is
    shown. *)
Example null_body_shows_error :
  settle local_env 0 (FetchResolves {| status := 200; json := Return VNull |}) loading_world
  = Some {| page := {| prompt := lit "Hello"; response := VString [];
                       isLoading := false;
                       error := lit "Cannot read properties of null (reading 'response')" |};
            in_flight := [];
            sent := sent loading_world |}.
Proof. vm_compute. reflexivity. Qed.

(** A rejection with something that is not an [Error] shows the fixed text. *)
Example non_error_rejection :
  settle local_env 0 (FetchRejects ThrownOther) loading_world
  = Some {| page := {| prompt := lit "Hello"; response := VString [];
                       isLoading := false; error := lit "An error occurred" |};
            in_flight := [];
            sent := sent loading_world |}.
Proof. vm_compute. reflexivity. Qed.

(** * Further properties of the code *)

Lemma blank_or_not (s : js_string) :
  blank s \/ Exists (fun c => is_white_space c = false) s.
Proof.
  unfold blank. induction s as [|c s [IH | IH]].
  - left. constructor.
  - destruct (is_white_space c) eqn:Hc.
    + left. by constructor.
    + right. by constructor.
  - right. by constructor.
Qed.

Lemma blank_not_Exists (s : js_string) :
  blank s -> ~ Exists (fun c => is_white_space c = false) s.
Proof.
  unfold blank. intros Hb He. induction He as [c s Hc | c s _ IH].
  - inversion Hb; congruence.
  - inversion Hb; auto.
Qed.

Lemma blank_prompt_is_noop (env : environment) (w : world) :
  blank (prompt (page w)) -> handleSubmit env w = w.
Proof. intros H. by apply handleSubmit_blank, trim_nil. Qed.

Lemma not_blank_trim (s : js_string) : ~ blank s <-> trim s <> [].
Proof. by rewrite trim_nil. Qed.

(** X1.  The guard of the handler, read on the prompt itself: the handler
    changes the client exactly when the prompt holds a code unit that is not
    white space, wherever in the prompt it stands, and the log of calls
    stays as it was exactly when the prompt is blank. *)
Theorem submit_sends_iff_not_blank (env : environment) (w : world) :
  (handleSubmit env w <> w
   <-> Exists (fun c => is_white_space c = false) (prompt (page w)))
  /\ (sent (handleSubmit env w) = sent w <-> blank (prompt (page w))).
Proof.
  assert (Hgrow : ~ blank (prompt (page w)) -> sent (handleSubmit env w) <> sent w).
  { intros Hn%not_blank_trim. rewrite handleSubmit_sends by done. cbn [sent].
    intros E%(f_equal length). rewrite length_app in E. simpl in E. lia. }
  split; split.
  - intros Hne. destruct (blank_or_not (prompt (page w))) as [Hb | He]; [|done].
    destruct Hne. by apply blank_prompt_is_noop.
  - intros He Heq. apply Hgrow; [|by rewrite Heq].
    intros Hb. by apply (blank_not_Exists _ Hb).
  - intros Heq. destruct (blank_or_not (prompt (page w))) as [Hb | He]; [done|].
    destruct Hgrow; [|done]. intros Hb. by apply (blank_not_Exists _ Hb).
  - intros Hb. by rewrite blank_prompt_is_noop.
Qed.

(** X2.  Every submit the rendered page admits makes exactly one call, for
    the prompt in the input, and leaves the page loading with that call as
    the only one pending: where the button is enabled the guard of the
    handler always passes. *)
Theorem page_submit_sends_one_call (env : environment) (w w' : world) :
  ui_reachable env w ->
  ui_step env w Submit w' ->
  sent w' = sent w ++ [sendMessage_fetch env (input_value (Home (page w)))]
  /\ in_flight w' = [sendMessage_fetch env (input_value (Home (page w)))]
  /\ isLoading (page w') = true
  /\ button_disabled (Home (page w')) = true.
Proof.
  intros Hreach Hstep. inversion Hstep as [| w0 Hbtn |]; subst.
  apply button_disabled_spec in Hbtn as [Hl Hp].
  destruct (ui_reachable_invariant env w Hreach) as [[Hq _] | (c & _ & Hl' & _)];
    [|congruence].
  rewrite handleSubmit_sends by done. cbn. by rewrite Hq.
Qed.

(** What each kind of event does to the log and to the pending calls. *)
Lemma only_submit_sends_aux (env : environment) (w : world) (ev : event) (w' : world) :
  step env w ev w' ->
  match ev with
  | Change v => sent w' = sent w /\ in_flight w' = in_flight w
  | Settle i o =>
      sent w' = sent w /\ S (length (in_flight w')) = length (in_flight w)
  | Submit =>
      (blank (prompt (page w)) /\ w' = w)
      \/ (~ blank (prompt (page w))
          /\ sent w' = sent w ++ [sendMessage_fetch env (prompt (page w))]
          /\ in_flight w' = in_flight w ++ [sendMessage_fetch env (prompt (page w))])
  end.
Proof.
  intros Hstep. destruct Hstep as [w v | w | w i o w' Hset].
  - done.
  - destruct (blank_or_not (prompt (page w))) as [Hb | He].
    + left. split; [done | by apply blank_prompt_is_noop].
    + assert (Hn : ~ blank (prompt (page w)))
        by (intros Hb; by apply (blank_not_Exists _ Hb)).
      right. split; [done|]. by rewrite handleSubmit_sends by by apply not_blank_trim.
  - apply settle_inv in Hset as ([c Hi] & _ & Hq & Hs). split; [done|].
    rewrite Hq, length_delete by eauto.
    apply lookup_lt_Some in Hi. lia.
Qed.


(** X3.  Only a submit makes a call.  Typing changes neither the log nor the
    pending calls; a settlement, whatever its outcome, removes one pending
    call and sends nothing, so a failed call is never retried; a submit adds
    one call for a prompt that is not blank and nothing for a blank one. *)
Theorem only_submit_sends (env : environment) (w : world) (ev : event) (w' : world) :
  step env w ev w' ->
  match ev with
  | Change v => sent w' = sent w /\ in_flight w' = in_flight w
  | Settle i o =>
      sent w' = sent w /\ S (length (in_flight w')) = length (in_flight w)
  | Submit =>
      (blank (prompt (page w)) /\ w' = w)
      \/ (~ blank (prompt (page w))
          /\ sent w' = sent w ++ [sendMessage_fetch env (prompt (page w))]
          /\ in_flight w' = in_flight w ++ [sendMessage_fetch env (prompt (page w))])
  end.
Proof. apply only_submit_sends_aux. Qed.

Lemma guarded_call_fetch (env : environment) (p : js_string) :
  ~ blank p -> guarded_call env (sendMessage_fetch env p).
Proof. intros Hp. by exists p. Qed.

(** X4.  However the handlers are called, the client never sends a blank
    message: every call in the log was built by [sendMessage] for a message
    that is not blank, and the pending calls are among the logged ones, in
    the order they were made. *)
Theorem never_sends_blank (env : environment) (w : world) :
  reachable env w ->
  Forall (guarded_call env) (sent w)
  /\ in_flight w `sublist_of` sent w.
Proof.
  induction 1 as [|w ev w' _ [IHs IHq] Hstep]; [by split|].
  pose proof (only_submit_sends_aux env w ev w' Hstep) as Hev.
  destruct ev as [v | | i o].
  - destruct Hev as [-> ->]. by split.
  - destruct Hev as [[_ ->] | (Hn & -> & ->)]; [by split|]. split.
    + apply Forall_app. split; [done|]. constructor; [|constructor].
      by apply guarded_call_fetch.
    + by apply sublist_app.
  - destruct Hev as [-> Hq]. split; [done|].
    inversion Hstep as [| | w0 i0 o0 w0' Hset]; subst.
    apply settle_inv in Hset as (_ & _ & -> & _).
    etrans; [apply sublist_delete | done].
Qed.

(** X5.  In every state the page can reach, the call in flight is the one
    for the text the input shows: the prompt cannot be edited between a
    submit and the settlement of its call, so the disabled input always
    displays what was sent. *)
Theorem pending_call_is_for_shown_prompt (env : environment) (w : world) :
  ui_reachable env w ->
  in_flight w = []
  \/ in_flight w = [sendMessage_fetch env (input_value (Home (page w)))].
Proof.
  induction 1 as [|w ev w' Hreach IH Hstep]; [by left|].
  pose proof (ui_reachable_invariant env w Hreach) as Hinv.
  destruct Hstep as [w v Hin | w Hbtn | w i o w' Hset].
  - left. cbn in Hin. destruct Hinv as [[Hq _] | (c & _ & Hl & _)]; [done | congruence].
  - apply button_disabled_spec in Hbtn as [Hl Hp]. right.
    destruct Hinv as [[Hq _] | (c & _ & Hl' & _)]; [|congruence].
    rewrite handleSubmit_sends by done. cbn. by rewrite Hq.
  - left. apply settle_inv in Hset as ([c Hi] & _ & -> & _).
    destruct Hinv as [[Hq _] | (c' & Hone & _)]; [by rewrite Hq in Hi|].
    rewrite Hone in Hi |- *. by destruct i as [|[|i]].
Qed.

(** X6.  In every state the page can reach, the button reads [Sending...]
    and the input is disabled exactly while a call is in flight; otherwise the
    button reads [Send] and the input takes text. *)
Theorem label_tells_in_flight (env : environment) (w : world) :
  ui_reachable env w ->
  button_label (Home (page w))
  = (if bool_decide (in_flight w = []) then lit "Send" else lit "Sending...")
  /\ input_disabled (Home (page w)) = negb (bool_decide (in_flight w = [])).
Proof.
  intros Hreach.
  destruct (ui_reachable_invariant env w Hreach) as [[Hq Hl] | (c & Hq & Hl & _)];
    cbn [Home button_label input_disabled]; rewrite Hq, Hl; done.
Qed.

(** X7.  The request determines the message: two messages made of 16-bit
    code units whose calls are equal, or only whose bodies are equal, are the
    same message, code unit for code unit. *)
Theorem request_body_injective (env : environment) (m1 m2 : js_string) :
  well_formed m1 ->
  well_formed m2 ->
  body (sendMessage_fetch env m1) = body (sendMessage_fetch env m2) ->
  m1 = m2.
Proof.
  intros H1 H2 E. cbn [sendMessage_fetch body] in E.
  apply (f_equal body_message) in E.
  rewrite !body_message_stringify in E by done. by injection E.
Qed.

Lemma plain_unit_hex_digit (d : N) : d < 16 -> plain_unit (hex_digit d) = true.
Proof.
  intros H.
  assert (Hd : d = 0 \/ d = 1 \/ d = 2 \/ d = 3 \/ d = 4 \/ d = 5 \/ d = 6 \/ d = 7
               \/ d = 8 \/ d = 9 \/ d = 10 \/ d = 11 \/ d = 12 \/ d = 13 \/ d = 14
               \/ d = 15) by lia.
  repeat (destruct Hd as [-> | Hd]; [reflexivity|]). by subst.
Qed.

Lemma plain_quote_unit (c : N) :
  code_unit c -> Forall (fun u => plain_unit u = true) (quote_unit c).
Proof.
  intros Hc. unfold quote_unit.
  repeat (destruct (c =? _); [by repeat constructor|]).
  destruct (c <? 32) eqn:Hlt; cbn [orb].
  { repeat constructor; apply plain_unit_hex_digit, N.mod_lt; lia. }
  destruct (is_leading_surrogate c) eqn:Hl; cbn [orb].
  { repeat constructor; apply plain_unit_hex_digit, N.mod_lt; lia. }
  destruct (is_trailing_surrogate c) eqn:Ht.
  { repeat constructor; apply plain_unit_hex_digit, N.mod_lt; lia. }
  constructor; [|constructor]. unfold plain_unit. rewrite Hl, Ht.
  apply N.ltb_ge in Hlt. unfold code_unit in Hc.
  rewrite (proj2 (N.leb_le _ _) Hlt), (proj2 (N.ltb_lt _ _) Hc). done.
Qed.

Lemma well_paired_app_bounded (n : nat) (a b : js_string) :
  (length a <= n)%nat ->
  well_paired a = true -> well_paired b = true -> well_paired (a ++ b) = true.
Proof.
  revert a. induction n as [|n IH]; intros a Hn Ha Hb.
  - destruct a; [done | simpl in Hn; lia].
  - destruct a as [|c a]; [done|]. cbn [app well_paired] in Ha |- *.
    destruct (is_leading_surrogate c).
    + destruct a as [|d a]; [done|]. cbn [app].
      apply andb_true_iff in Ha as [Hd Ha]. rewrite Hd. cbn [andb].
      apply IH; [simpl in Hn; lia | done | done].
    + apply andb_true_iff in Ha as [Hc Ha]. rewrite Hc. cbn [andb].
      apply IH; [simpl in Hn; lia | done | done].
Qed.

Lemma well_paired_app (a b : js_string) :
  well_paired a = true -> well_paired b = true -> well_paired (a ++ b) = true.
Proof. by apply (well_paired_app_bounded (length a)). Qed.

Lemma plain_well_paired (a : js_string) :
  Forall (fun u => plain_unit u = true) a -> well_paired a = true.
Proof.
  induction 1 as [|c a Hc _ IH]; [done|].
  unfold plain_unit in Hc.
  apply andb_true_iff in Hc as [Hc Ht]. apply andb_true_iff in Hc as [_ Hl].
  apply negb_true_iff in Hl, Ht. cbn [well_paired]. by rewrite Hl, Ht, IH.
Qed.

Lemma plain_printable (c : N) : plain_unit c = true -> printable c.
Proof.
  unfold plain_unit, printable. intros H.
  apply andb_true_iff in H as [H _]. apply andb_true_iff in H as [H _].
  apply andb_true_iff in H as [H1 H2].
  apply N.leb_le in H1. apply N.ltb_lt in H2. lia.
Qed.

Lemma surrogate_printable (c : N) :
  code_unit c -> is_leading_surrogate c || is_trailing_surrogate c = true -> printable c.
Proof.
  unfold code_unit, printable, is_leading_surrogate, is_trailing_surrogate.
  intros Hc H. apply orb_true_iff in H as [H | H];
    apply andb_true_iff in H as [H _]; apply N.leb_le in H; lia.
Qed.

(** Text that is clean: printable units, surrogates in pairs. *)
Lemma clean_app (a b : js_string) :
  Forall printable a /\ well_paired a = true ->
  Forall printable b /\ well_paired b = true ->
  Forall printable (a ++ b) /\ well_paired (a ++ b) = true.
Proof.
  intros [Ha Ha'] [Hb Hb']. split; [by apply Forall_app | by apply well_paired_app].
Qed.

Lemma clean_plain (a : js_string) :
  Forall (fun u => plain_unit u = true) a ->
  Forall printable a /\ well_paired a = true.
Proof.
  intros H. split; [|by apply plain_well_paired].
  eapply Forall_impl; [done | apply plain_printable].
Qed.

Lemma quote_units_clean_bounded (n : nat) (s : js_string) :
  (length s <= n)%nat -> well_formed s ->
  Forall printable (quote_units s) /\ well_paired (quote_units s) = true.
Proof.
  revert s. induction n as [|n IH]; intros s Hn Hs.
  - destruct s; [by split | simpl in Hn; lia].
  - destruct s as [|c [|d s]]; [by split | |].
    + apply Forall_cons in Hs as [Hc _]. cbn [quote_units].
      by apply clean_plain, plain_quote_unit.
    + apply Forall_cons in Hs as [Hc Hs]. rewrite quote_units_pair.
      destruct (is_leading_surrogate c && is_trailing_surrogate d) eqn:Hpair.
      * apply andb_true_iff in Hpair as [Hl Ht].
        apply Forall_cons in Hs as [Hd Hs].
        destruct (IH s) as [IHp IHw]; [simpl in Hn; lia | done |]. split.
        -- constructor; [apply surrogate_printable; [done | by rewrite Hl]|].
           constructor; [apply surrogate_printable; [done | by rewrite Ht, orb_true_r]|].
           done.
        -- cbn [well_paired]. by rewrite Hl, Ht, IHw.
      * apply clean_app; [by apply clean_plain, plain_quote_unit|].
        apply IH; [simpl in Hn |- *; lia | done].
Qed.

Lemma QuoteJSONString_clean (s : js_string) :
  well_formed s ->
  Forall printable (QuoteJSONString s) /\ well_paired (QuoteJSONString s) = true.
Proof.
  intros Hs. unfold QuoteJSONString.
  apply (clean_app [34]); [by apply clean_plain; repeat constructor|].
  apply clean_app; [by apply (quote_units_clean_bounded (length s))|].
  by apply clean_plain; repeat constructor.
Qed.

Lemma JSON_stringify_clean (key value : js_string) :
  well_formed key -> well_formed value ->
  Forall printable (JSON_stringify [(key, value)])
  /\ well_paired (JSON_stringify [(key, value)]) = true.
Proof.
  intros Hk Hv. unfold JSON_stringify, serialize_property. cbn [map join_comma fst snd].
  apply (clean_app [123]); [by apply clean_plain; repeat constructor|].
  apply clean_app; [|by apply clean_plain; repeat constructor].
  apply clean_app; [by apply QuoteJSONString_clean|].
  apply (clean_app [58]); [by apply clean_plain; repeat constructor|].
  by apply QuoteJSONString_clean.
Qed.

(** X8.  The body of a call is safe to put on the wire: for a message of
    16-bit code units, the JSON text holds no control character, every code
    unit is 16 bits wide, and every surrogate in it is half of a pair, a lone
    surrogate of the message having been written as an escape; and a reader
    of that text gets the message back. *)
Theorem request_body_is_clean_text (env : environment) (message : js_string) :
  well_formed message ->
  Forall printable (body (sendMessage_fetch env message))
  /\ well_paired (body (sendMessage_fetch env message)) = true
  /\ body_message (body (sendMessage_fetch env message)) = Some message.
Proof.
  intros Hm. cbn [sendMessage_fetch body].
  destruct (JSON_stringify_clean (lit "message") message (well_formed_lit _) Hm)
    as [Hp Hw].
  split; [done|]. split; [done|]. by apply body_message_stringify.
Qed.

Lemma digits_inj (u v : Decimal.uint) : digits u = digits v -> u = v.
Proof.
  revert v. induction u as [|u IH|u IH|u IH|u IH|u IH|u IH|u IH|u IH|u IH|u IH];
    intros [|v|v|v|v|v|v|v|v|v|v] E; simpl in E; try done;
    injection E as E; f_equal; by apply IH.
Qed.

Lemma Number_toString_inj (m n : N) : Number_toString m = Number_toString n -> m = n.
Proof. intros E%digits_inj. by apply DecimalN.Unsigned.to_uint_inj. Qed.

Lemma digits_are_digits (u : Decimal.uint) :
  Forall (fun c => is_digit c = true) (digits u).
Proof. induction u; simpl; by constructor. Qed.

Lemma Number_toString_nonempty (n : N) : Number_toString n <> [].
Proof.
  unfold Number_toString. destruct n as [|p]; [done|]. cbn [N.to_uint].
  intros E. apply (DecimalPos.Unsigned.to_uint_nonnil p).
  by destruct (Pos.to_uint p).
Qed.

(** X9.  The error [sendMessage] throws for a response that is not [ok]
    names the status and nothing else: the message is [API error: ] followed
    by the decimal digits of the status, two such responses throw the same
    error exactly when their statuses are equal, and the body of the
    response plays no part. *)
Theorem api_error_names_status (r1 r2 : Response) :
  ok r1 = false ->
  ok r2 = false ->
  (sendMessage_resume (FetchResolves r1) = sendMessage_resume (FetchResolves r2)
   <-> status r1 = status r2)
  /\ exists ds,
       sendMessage_resume (FetchResolves r1)
       = Throw (ThrownError (lit "API error: " ++ ds))
       /\ ds <> []
       /\ Forall (fun c => is_digit c = true) ds.
Proof.
  intros H1 H2. unfold sendMessage_resume. rewrite H1, H2. cbn [negb]. split.
  - split.
    + intros [= E]. by apply Number_toString_inj.
    + by intros ->.
  - exists (Number_toString (status r1)). split; [done|].
    split; [apply Number_toString_nonempty | apply digits_are_digits].
Qed.

(** The whole of a submission made from an idle client, in closed form. *)
Lemma submission_result (env : environment) (w : world) (o : fetch_outcome) :
  trim (prompt (page w)) <> [] ->
  in_flight w = [] ->
  settle env 0 o (handleSubmit env w)
  = Some {| page := settled_page env (prompt (page w)) o;
            in_flight := [];
            sent := sent w ++ [sendMessage_fetch env (prompt (page w))] |}.
Proof.
  intros Hp Hq. rewrite handleSubmit_sends by done. rewrite Hq.
  rewrite (settle_pending env 0 o _ (sendMessage_fetch env (prompt (page w)))) by done.
  cbn [page in_flight sent app]. rewrite resume_cases. unfold settled_page.
  by destruct (try_block env o).
Qed.

(** X10.  A reply with a status in 200..299 whose body parses to [null] is a
    failed submission: reading [response] throws, the engine's message for
    that [TypeError] becomes the error, no response is kept or shown, and the
    page stops loading. *)
Theorem null_body_is_an_error (env : environment) (w : world) (res : Response) :
  trim (prompt (page w)) <> [] ->
  in_flight w = [] ->
  ok res = true ->
  json res = Return VNull ->
  exists w',
    settle env 0 (FetchResolves res) (handleSubmit env w) = Some w'
    /\ isLoading (page w') = false
    /\ error (page w') = null_read_message env VNull
    /\ response (page w') = VString []
    /\ shows_response (page w') = false
    /\ shows_error (page w') = truthy (VString (null_read_message env VNull)).
Proof.
  intros Hp Hq Hok Hjson. eexists. split; [by apply submission_result|].
  cbn [page]. rewrite shows_response_spec, shows_error_spec.
  unfold settled_page, try_block, sendMessage_resume. rewrite Hok, Hjson. by cbn.
Qed.

(** X11.  A reply with a status in 200..299 whose body parses to an array, a
    string, a number or a boolean is taken as a success without text: the
    response state becomes [undefined], no error is recorded, neither card is
    shown and the page stops loading. *)
Theorem non_object_body_shows_nothing
    (env : environment) (w : world) (res : Response) (v : js_value) :
  trim (prompt (page w)) <> [] ->
  in_flight w = [] ->
  ok res = true ->
  json res = Return v ->
  is_primitive_or_array v = true ->
  exists w',
    settle env 0 (FetchResolves res) (handleSubmit env w) = Some w'
    /\ isLoading (page w') = false
    /\ response (page w') = VUndefined
    /\ error (page w') = []
    /\ shows_response (page w') = false
    /\ shows_error (page w') = false.
Proof.
  intros Hp Hq Hok Hjson Hv. eexists. split; [by apply submission_result|].
  cbn [page]. rewrite shows_response_spec, shows_error_spec.
  unfold settled_page, try_block, sendMessage_resume. rewrite Hok, Hjson.
  by destruct v.
Qed.

(** X12.  A reply with a status in 200..299 whose body cannot be parsed is
    handled exactly as a call that never got a reply: the world after it is
    the world after a rejection of [fetch] with the same thrown value, with
    the text of that value as the error, which is [An error occurred] when
    the value is no [Error], and with no response. *)
Theorem unreadable_body_is_a_failure
    (env : environment) (w : world) (res : Response) (e : js_thrown) :
  trim (prompt (page w)) <> [] ->
  in_flight w = [] ->
  ok res = true ->
  json res = Throw e ->
  settle env 0 (FetchResolves res) (handleSubmit env w)
  = settle env 0 (FetchRejects e) (handleSubmit env w)
  /\ exists w',
       settle env 0 (FetchRejects e) (handleSubmit env w) = Some w'
       /\ isLoading (page w') = false
       /\ error (page w') = error_text e
       /\ (e = ThrownOther -> error (page w') = lit "An error occurred")
       /\ response (page w') = VString []
       /\ shows_response (page w') = false.
Proof.
  intros Hp Hq Hok Hjson.
  assert (Htry : try_block env (FetchResolves res) = Throw e).
  { unfold try_block, sendMessage_resume. by rewrite Hok, Hjson. }
  rewrite !submission_result by done. split.
  - unfold settled_page. by rewrite Htry.
  - eexists. split; [done|]. cbn [page]. rewrite shows_response_spec.
    unfold settled_page. cbn [try_block sendMessage_resume isLoading error response].
    repeat split. by intros ->.
Qed.

(** X13.  Nothing is remembered between submissions: after a submission from
    an idle client has settled, with any outcome, pressing Send again builds
    the same request once more and brings the page to the same loading state
    as the first time; there is no cache and no suppression of a repeat. *)
Theorem resubmission_sends_again (env : environment) (w : world) (o : fetch_outcome) :
  trim (prompt (page w)) <> [] ->
  in_flight w = [] ->
  exists w1,
    settle env 0 o (handleSubmit env w) = Some w1
    /\ button_disabled (Home (page w1)) = false
    /\ page (handleSubmit env w1) = page (handleSubmit env w)
    /\ in_flight (handleSubmit env w1) = [sendMessage_fetch env (prompt (page w))]
    /\ sent (handleSubmit env w1)
       = sent w ++ [sendMessage_fetch env (prompt (page w));
                    sendMessage_fetch env (prompt (page w))].
Proof.
  intros Hp Hq. eexists. split; [by apply submission_result|].
  assert (Hsame : prompt (settled_page env (prompt (page w)) o) = prompt (page w)).
  { unfold settled_page. by destruct (try_block env o). }
  split.
  - apply button_disabled_spec. cbn [page]. rewrite Hsame. split; [|done].
    unfold settled_page. by destruct (try_block env o).
  - rewrite !handleSubmit_sends by (cbn [page]; by rewrite ?Hsame).
    cbn [page in_flight sent]. rewrite Hsame, <- app_assoc. done.
Qed.

(** X14.  What a submission ends with depends on the prompt and on the
    outcome of the call only: two idle clients that hold the same prompt,
    whatever responses or errors they show from earlier submissions, end a
    submission with the same outcome on the same page. *)
Theorem submission_forgets_history
    (env : environment) (w1 w2 : world) (o : fetch_outcome) :
  prompt (page w1) = prompt (page w2) ->
  trim (prompt (page w1)) <> [] ->
  in_flight w1 = [] ->
  in_flight w2 = [] ->
  exists w1' w2',
    settle env 0 o (handleSubmit env w1) = Some w1'
    /\ settle env 0 o (handleSubmit env w2) = Some w2'
    /\ page w1' = page w2'
    /\ Home (page w1') = Home (page w2').
Proof.
  intros Heq Hp Hq1 Hq2.
  do 2 eexists. split; [by apply submission_result|].
  split; [apply submission_result; [by rewrite <- Heq | done]|].
  cbn [page]. by rewrite Heq.
Qed.

Lemma ui_reachable_reachable (env : environment) (w : world) :
  ui_reachable env w -> reachable env w.
Proof.
  induction 1 as [|w ev w' _ IH Hstep]; [constructor|].
  apply (reachable_step env w ev w' IH).
  destruct Hstep; by constructor.
Qed.

Lemma trimStart_fixed (c : N) (t : js_string) :
  is_white_space c = false -> trimStart (c :: t) = c :: t.
Proof. intros H. cbn [trimStart]. by rewrite H. Qed.

Lemma trim_idempotent (s : js_string) : trim (trim s) = trim s.
Proof.
  destruct (trim_ends s) as [Hhead Hlast].
  destruct (trim s) as [|c t] eqn:E; [reflexivity|].
  unfold trim at 1. rewrite (trimStart_fixed c t) by by eapply Hhead.
  unfold trimEnd.
  destruct (rev (c :: t)) as [|l r] eqn:Er.
  - apply rev_nil_inv in Er. done.
  - assert (El : c :: t = rev r ++ [l]).
    { rewrite <- (rev_involutive (c :: t)), Er. reflexivity. }
    rewrite (trimStart_fixed l r) by by eapply Hlast.
    by rewrite <- Er, rev_involutive.
Qed.

(** X15.  What the guard and the button test with [prompt.trim()]: the
    trimmed prompt is the prompt without a prefix and a suffix of white space,
    it neither starts nor ends with white space, trimming it again changes
    nothing, and it is empty exactly when the prompt is blank. *)
Theorem trim_strips_surrounding_white_space (s : js_string) :
  (exists p q, s = p ++ trim s ++ q /\ blank p /\ blank q)
  /\ (forall c t, trim s = c :: t -> is_white_space c = false)
  /\ (forall c t, trim s = t ++ [c] -> is_white_space c = false)
  /\ trim (trim s) = trim s
  /\ (trim s = [] <-> blank s).
Proof.
  split; [apply trim_decomposition|].
  split; [apply trim_ends|]. split; [apply trim_ends|].
  split; [apply trim_idempotent | apply trim_nil].
Qed.

(** X16.  The base of the URL is never empty: a variable that is not set, or
    set to the empty string, gives [http://localhost:8000], any other value
    is used as it is, and the URL of a call is that base followed by
    [/api/chat], whatever the message. *)
Theorem api_url_falls_back (env : environment) :
  API_URL env <> []
  /\ (API_URL env = lit "http://localhost:8000"
      <-> NEXT_PUBLIC_API_URL env = None
          \/ NEXT_PUBLIC_API_URL env = Some []
          \/ NEXT_PUBLIC_API_URL env = Some (lit "http://localhost:8000"))
  /\ (forall s, NEXT_PUBLIC_API_URL env = Some s -> s <> [] -> API_URL env = s)
  /\ (forall message, url (sendMessage_fetch env message) = API_URL env ++ lit "/api/chat").
Proof.
  assert (Hurl : forall message,
            url (sendMessage_fetch env message) = API_URL env ++ lit "/api/chat")
    by reflexivity.
  revert Hurl. unfold API_URL.
  destruct (NEXT_PUBLIC_API_URL env) as [[|c s]|]; cbn [truthy]; intros Hurl.
  - split; [done|]. split; [|split; [by intros s [= <-]|done]].
    split; [auto | done].
  - split; [done|]. split; [|split; [by intros s' [= <-]|done]].
    split; [intros ->; auto | intros [H | [H | H]]; congruence].
  - split; [done|]. split; [|split; [done|done]].
    split; [auto | done].
Qed.

(** * The further properties at concrete inputs *)

Lemma page_submit_sends_one_call_witness :
  ui_reachable local_env typed_world
  /\ ui_step local_env typed_world Submit loading_world
  /\ sent loading_world = [sendMessage_fetch local_env (lit "Hello")]
  /\ in_flight loading_world = [sendMessage_fetch local_env (lit "Hello")]
  /\ isLoading (page loading_world) = true.
Proof.
  assert (Hstep : ui_step local_env typed_world Submit loading_world)
    by (by apply ui_submit).
  destruct (page_submit_sends_one_call local_env typed_world loading_world
              typed_world_reachable Hstep) as (Hs & Hq & Hl & _).
  split; [exact typed_world_reachable|]. split; [exact Hstep|].
  split; [exact Hs|]. split; [exact Hq | exact Hl].
Defined.

Lemma only_submit_sends_witness :
  step local_env loading_world (Settle 0 (reply_status 500))
       {| page := handleSubmit_resume local_env (reply_status 500) (page loading_world);
          in_flight := [];
          sent := sent loading_world |}
  /\ S (length (@nil request)) = length (in_flight loading_world).
Proof.
  assert (Hstep : step local_env loading_world (Settle 0 (reply_status 500))
                    {| page := handleSubmit_resume local_env (reply_status 500)
                                 (page loading_world);
                       in_flight := [];
                       sent := sent loading_world |})
    by (by apply step_settle).
  split; [exact Hstep|].
  exact (proj2 (only_submit_sends local_env _ _ _ Hstep)).
Defined.

Lemma overlapping_world_reachable :
  reachable local_env (handleSubmit local_env loading_world).
Proof.
  apply (reachable_step local_env loading_world Submit);
    [apply ui_reachable_reachable, loading_world_reachable | apply step_submit].
Qed.

Lemma never_sends_blank_witness :
  reachable local_env (handleSubmit local_env loading_world)
  /\ length (sent (handleSubmit local_env loading_world)) = 2%nat
  /\ Forall (guarded_call local_env) (sent (handleSubmit local_env loading_world))
  /\ in_flight (handleSubmit local_env loading_world)
     `sublist_of` sent (handleSubmit local_env loading_world).
Proof.
  destruct (never_sends_blank local_env _ overlapping_world_reachable) as [Hs Hq].
  split; [exact overlapping_world_reachable|]. split; [reflexivity|].
  split; [exact Hs | exact Hq].
Defined.

Lemma pending_call_is_for_shown_prompt_witness :
  ui_reachable local_env loading_world
  /\ (in_flight loading_world = []
      \/ in_flight loading_world
         = [sendMessage_fetch local_env (input_value (Home (page loading_world)))]).
Proof.
  split; [exact loading_world_reachable|].
  exact (pending_call_is_for_shown_prompt local_env _ loading_world_reachable).
Defined.

Lemma label_tells_in_flight_witness :
  ui_reachable local_env loading_world
  /\ button_label (Home (page loading_world)) = lit "Sending..."
  /\ input_disabled (Home (page loading_world)) = true.
Proof.
  split; [exact loading_world_reachable|].
  exact (label_tells_in_flight local_env _ loading_world_reachable).
Defined.

Lemma request_body_injective_witness :
  well_formed (lit "Hello")
  /\ body (sendMessage_fetch local_env (lit "Hello"))
     = body (sendMessage_fetch local_env (lit "Hello"))
  /\ lit "Hello" = lit "Hello".
Proof.
  assert (H : well_formed (lit "Hello")) by apply well_formed_lit.
  split; [exact H|]. split; [reflexivity|].
  exact (request_body_injective local_env _ _ H H eq_refl).
Defined.

Lemma request_body_is_clean_text_witness :
  well_formed [104; 34; 10; 55357; 56832; 56832]
  /\ Forall printable
       (body (sendMessage_fetch local_env [104; 34; 10; 55357; 56832; 56832]))
  /\ well_paired
       (body (sendMessage_fetch local_env [104; 34; 10; 55357; 56832; 56832])) = true
  /\ well_paired [104; 34; 10; 55357; 56832; 56832] = false.
Proof.
  assert (H : well_formed [104; 34; 10; 55357; 56832; 56832])
    by (repeat constructor).
  destruct (request_body_is_clean_text local_env _ H) as (Hp & Hw & _).
  split; [exact H|]. split; [exact Hp|]. split; [exact Hw | reflexivity].
Defined.

Lemma api_error_names_status_witness :
  ok {| status := 404; json := Return VNull |} = false
  /\ ok {| status := 404; json := Throw ThrownOther |} = false
  /\ sendMessage_resume (FetchResolves {| status := 404; json := Return VNull |})
     = sendMessage_resume (FetchResolves {| status := 404; json := Throw ThrownOther |}).
Proof.
  split; [reflexivity|]. split; [reflexivity|].
  exact (proj2 (proj1 (api_error_names_status
                         {| status := 404; json := Return VNull |}
                         {| status := 404; json := Throw ThrownOther |}
                         eq_refl eq_refl)) eq_refl).
Defined.

Lemma null_body_is_an_error_witness :
  trim (prompt (page typed_world)) <> []
  /\ in_flight typed_world = []
  /\ exists w',
       settle local_env 0 (FetchResolves {| status := 200; json := Return VNull |})
         (handleSubmit local_env typed_world) = Some w'
       /\ error (page w') = lit "Cannot read properties of null (reading 'response')"
       /\ shows_response (page w') = false.
Proof.
  assert (H1 : trim (prompt (page typed_world)) <> []) by (vm_compute; discriminate).
  assert (H2 : in_flight typed_world = []) by reflexivity.
  destruct (null_body_is_an_error local_env typed_world
              {| status := 200; json := Return VNull |} H1 H2 eq_refl eq_refl)
    as (w' & Hset & _ & He & _ & Hr & _).
  split; [exact H1|]. split; [exact H2|].
  exists w'. split; [exact Hset|]. split; [exact He | exact Hr].
Defined.

Lemma non_object_body_shows_nothing_witness :
  trim (prompt (page typed_world)) <> []
  /\ in_flight typed_world = []
  /\ exists w',
       settle local_env 0
         (FetchResolves {| status := 200; json := Return (VArray [VString (lit "Hi")]) |})
         (handleSubmit local_env typed_world) = Some w'
       /\ response (page w') = VUndefined
       /\ shows_response (page w') = false
       /\ shows_error (page w') = false.
Proof.
  assert (H1 : trim (prompt (page typed_world)) <> []) by (vm_compute; discriminate).
  assert (H2 : in_flight typed_world = []) by reflexivity.
  destruct (non_object_body_shows_nothing local_env typed_world
              {| status := 200; json := Return (VArray [VString (lit "Hi")]) |}
              (VArray [VString (lit "Hi")]) H1 H2 eq_refl eq_refl eq_refl)
    as (w' & Hset & _ & Hr & _ & Hsr & Hse).
  split; [exact H1|]. split; [exact H2|].
  exists w'. split; [exact Hset|]. split; [exact Hr|]. split; [exact Hsr | exact Hse].
Defined.

Lemma unreadable_body_is_a_failure_witness :
  trim (prompt (page typed_world)) <> []
  /\ in_flight typed_world = []
  /\ settle local_env 0
       (FetchResolves {| status := 200; json := Throw (ThrownError (lit "Unexpected token")) |})
       (handleSubmit local_env typed_world)
     = settle local_env 0 (FetchRejects (ThrownError (lit "Unexpected token")))
         (handleSubmit local_env typed_world).
Proof.
  assert (H1 : trim (prompt (page typed_world)) <> []) by (vm_compute; discriminate).
  assert (H2 : in_flight typed_world = []) by reflexivity.
  split; [exact H1|]. split; [exact H2|].
  exact (proj1 (unreadable_body_is_a_failure local_env typed_world
                  {| status := 200; json := Throw (ThrownError (lit "Unexpected token")) |}
                  (ThrownError (lit "Unexpected token")) H1 H2 eq_refl eq_refl)).
Defined.

Lemma resubmission_sends_again_witness :
  trim (prompt (page answered_world)) <> []
  /\ in_flight answered_world = []
  /\ exists w1,
       settle local_env 0 (reply_status 500) (handleSubmit local_env answered_world) = Some w1
       /\ length (sent (handleSubmit local_env w1)) = 3%nat.
Proof.
  assert (H1 : trim (prompt (page answered_world)) <> []) by (vm_compute; discriminate).
  assert (H2 : in_flight answered_world = []) by reflexivity.
  destruct (resubmission_sends_again local_env answered_world (reply_status 500) H1 H2)
    as (w1 & Hset & _ & _ & _ & Hs).
  split; [exact H1|]. split; [exact H2|].
  exists w1. split; [exact Hset|]. rewrite Hs. reflexivity.
Defined.

Lemma submission_forgets_history_witness :
  prompt (page typed_world) = prompt (page (onChange (lit "Hello") answered_world))
  /\ trim (prompt (page typed_world)) <> []
  /\ response (page typed_world)
     <> response (page (onChange (lit "Hello") answered_world))
  /\ exists w1' w2',
       settle local_env 0 (reply_with (lit "Hi")) (handleSubmit local_env typed_world)
       = Some w1'
       /\ settle local_env 0 (reply_with (lit "Hi"))
            (handleSubmit local_env (onChange (lit "Hello") answered_world))
          = Some w2'
       /\ page w1' = page w2'.
Proof.
  assert (H1 : trim (prompt (page typed_world)) <> []) by (vm_compute; discriminate).
  destruct (submission_forgets_history local_env typed_world
              (onChange (lit "Hello") answered_world) (reply_with (lit "Hi"))
              eq_refl H1 eq_refl eq_refl)
    as (w1' & w2' & Hs1 & Hs2 & Hpage & _).
  split; [reflexivity|]. split; [exact H1|]. split; [discriminate|].
  exists w1', w2'. split; [exact Hs1|]. split; [exact Hs2 | exact Hpage].
Defined.
